(** * An in-memory block file system (hh.c): model and verified properties

    The C program keeps a pool of [MAX_BLOCKS] blocks of [BLOCK_SIZE] bytes
    and a table of [MAX_FILES] inodes, each with a used-map, and offers
    create / write / read / delete / list over them.  This file embeds those
    functions as Rocq functions over an explicit [filesystem_t] value and
    proves (or refutes on concrete runs) the properties stated for them.

    Conventions of the embedding:
    - every C function that mutates [*fs] returns the new [filesystem_t]
      next to its [int] result ([-1] is the failure code of the source);
    - fixed-width counters are [Z] with the wrap-around written out;
    - array indices and loop counters are [nat]; arrays are lists, read with
      [!!] / [nth] and written with [<[i:=x]>].  An out-of-bounds access is
      undefined behaviour in C; here an out-of-bounds write changes nothing
      and an out-of-bounds read gives the default.  The invariant below
      shows that a reachable state never performs one on the file system's
      own arrays;
    - a C string is the [string] of its characters before the terminating
      NUL; [strlen] is its length and [strcmp(a, b) == 0] is [String.eqb];
    - pointers are taken to be valid (the [!fs], [!filename], [!data],
      [!buffer] guards never fire), [malloc]/[calloc] succeed, and the value
      of [time(NULL)] is passed in as [now]. *)

From Stdlib Require Import ZArith String Ascii Lia.
From Stdlib Require Import Init.Byte.
From stdpp Require Import base tactics option list strings.

Local Open Scope Z_scope.

(** ** Constants ([#define]s) *)

Definition MAX_FILENAME : Z := 32.
Definition MAX_FILES : Z := 256.
Definition MAX_FILE_SIZE : Z := 1024.
Definition BLOCK_SIZE : Z := 64.
Definition MAX_BLOCKS : Z := MAX_FILE_SIZE / BLOCK_SIZE.

(** ** Machine integers *)

(** [uint8_t], [uint32_t], [size_t] (64 bit) keep the low bits. *)
Definition wrap8 (z : Z) : Z := z mod 2 ^ 8.
Definition wrap32 (z : Z) : Z := z mod 2 ^ 32.
Definition wrap64 (z : Z) : Z := z mod 2 ^ 64.

(** Conversion to [int] at a [return]. *)
Definition to_int (z : Z) : Z := (z + 2 ^ 31) mod 2 ^ 32 - 2 ^ 31.

(** ** Data structures *)

Record inode_t := Inode {
  name : string;              (* char name[MAX_FILENAME], as a C string *)
  size : Z;                   (* uint32_t *)
  inode_blocks : list nat;    (* uint32_t blocks[MAX_BLOCKS]: pool indices *)
  num_blocks : Z;             (* uint8_t *)
  created : Z;                (* time_t *)
  modified : Z;               (* time_t *)
  is_directory : Z            (* uint8_t *)
}.

Record block_t := Block {
  data : list byte            (* uint8_t data[BLOCK_SIZE] *)
}.

Record filesystem_t := Filesystem {
  total_blocks : Z;
  free_blocks : Z;
  total_inodes : Z;
  free_inodes : Z;
  blocks : list block_t;
  inodes : list inode_t;
  block_map : list Z;         (* 1 = used, 0 = free *)
  inode_map : list Z          (* 1 = used, 0 = free *)
}.

(** Field updates, one per assignment form of the source. *)

Definition set_free_blocks (v : Z) (fs : filesystem_t) : filesystem_t :=
  Filesystem (total_blocks fs) v (total_inodes fs) (free_inodes fs)
             (blocks fs) (inodes fs) (block_map fs) (inode_map fs).

Definition set_free_inodes (v : Z) (fs : filesystem_t) : filesystem_t :=
  Filesystem (total_blocks fs) (free_blocks fs) (total_inodes fs) v
             (blocks fs) (inodes fs) (block_map fs) (inode_map fs).

Definition set_blocks (v : list block_t) (fs : filesystem_t) : filesystem_t :=
  Filesystem (total_blocks fs) (free_blocks fs) (total_inodes fs) (free_inodes fs)
             v (inodes fs) (block_map fs) (inode_map fs).

Definition set_inodes (v : list inode_t) (fs : filesystem_t) : filesystem_t :=
  Filesystem (total_blocks fs) (free_blocks fs) (total_inodes fs) (free_inodes fs)
             (blocks fs) v (block_map fs) (inode_map fs).

Definition set_block_map (v : list Z) (fs : filesystem_t) : filesystem_t :=
  Filesystem (total_blocks fs) (free_blocks fs) (total_inodes fs) (free_inodes fs)
             (blocks fs) (inodes fs) v (inode_map fs).

Definition set_inode_map (v : list Z) (fs : filesystem_t) : filesystem_t :=
  Filesystem (total_blocks fs) (free_blocks fs) (total_inodes fs) (free_inodes fs)
             (blocks fs) (inodes fs) (block_map fs) v.

(** What [calloc] and [memset(inode, 0, sizeof(inode_t))] leave behind. *)
Definition zero_inode : inode_t :=
  Inode EmptyString 0 (replicate (Z.to_nat MAX_BLOCKS) 0%nat) 0 0 0 0.

Definition zero_block : block_t := Block (replicate (Z.to_nat BLOCK_SIZE) x00).

(** ** libc *)

Definition strlen (s : string) : Z := Z.of_nat (String.length s).

(** [strncpy(dst, src, n)] into a zeroed [dst] whose byte [n] stays 0: the
    C string left in [dst] is the first [n] characters of [src]. *)
Definition strncpy (src : string) (n : Z) : string :=
  substring 0 (Z.to_nat n) src.

(** [memcpy(dst + doff, src + soff, n)]. *)
Definition memcpy (dst : list byte) (doff : nat) (src : list byte) (soff : nat)
    (n : Z) : list byte :=
  list_inserts doff (take (Z.to_nat n) (drop soff src)) dst.

(** ** fs_create *)

Definition fs_create : filesystem_t :=
  let total := MAX_FILE_SIZE / BLOCK_SIZE in
  Filesystem total total MAX_FILES MAX_FILES
             (replicate (Z.to_nat total) zero_block)
             (replicate (Z.to_nat MAX_FILES) zero_inode)
             (replicate (Z.to_nat total) 0)
             (replicate (Z.to_nat MAX_FILES) 0).

(** ** find_free_inode, find_free_block *)

(** The scan shared by both allocators:
    [for (i = i0; i < i0 + n; i++) if (!map[i]) ... return i; ... return -1]. *)
Fixpoint first_free (map : list Z) (i n : nat) : option nat :=
  match n with
  | O => None
  | S n' =>
      match map !! i with
      | Some 0 => Some i
      | _ => first_free map (S i) n'
      end
  end.

Definition find_free_inode (fs : filesystem_t) : option nat * filesystem_t :=
  match first_free (inode_map fs) 0 (Z.to_nat (total_inodes fs)) with
  | Some i =>
      (Some i,
       set_free_inodes (wrap32 (free_inodes fs - 1))
         (set_inode_map (<[i := 1]> (inode_map fs)) fs))
  | None => (None, fs)
  end.

Definition find_free_block (fs : filesystem_t) : option nat * filesystem_t :=
  match first_free (block_map fs) 0 (Z.to_nat (total_blocks fs)) with
  | Some i =>
      (Some i,
       set_free_blocks (wrap32 (free_blocks fs - 1))
         (set_block_map (<[i := 1]> (block_map fs)) fs))
  | None => (None, fs)
  end.

(** ** The name lookup loop of create / write / read / delete *)

(** [fs->inode_map[i] && strcmp(fs->inodes[i].name, filename) == 0] *)
Definition live_named (fs : filesystem_t) (filename : string) (i : nat) : bool :=
  match inode_map fs !! i, inodes fs !! i with
  | Some m, Some inode => negb (m =? 0) && String.eqb (name inode) filename
  | _, _ => false
  end.

Fixpoint lookup_from (fs : filesystem_t) (filename : string) (i n : nat)
    : option nat :=
  match n with
  | O => None
  | S n' =>
      if live_named fs filename i then Some i
      else lookup_from fs filename (S i) n'
  end.

Definition lookup_name (fs : filesystem_t) (filename : string) : option nat :=
  lookup_from fs filename 0 (Z.to_nat (total_inodes fs)).

(** ** fs_create_file *)

Definition init_inode (filename : string) (now : Z) (inode : inode_t) : inode_t :=
  Inode (strncpy filename (MAX_FILENAME - 1)) 0 (inode_blocks inode) 0 now now 0.

Definition fs_create_file (fs : filesystem_t) (filename : string) (now : Z)
    : Z * filesystem_t :=
  if MAX_FILENAME <=? strlen filename then (-1, fs)
  else
    match lookup_name fs filename with
    | Some _ => (-1, fs)
    | None =>
        match find_free_inode fs with
        | (None, fs1) => (-1, fs1)
        | (Some inode_num, fs1) =>
            (to_int (Z.of_nat inode_num),
             set_inodes (alter (init_inode filename now) inode_num (inodes fs1)) fs1)
        end
    end.

(** ** fs_write *)

(** [for (i = 0; i < inode->num_blocks; i++)
       { fs->block_map[inode->blocks[i]] = 0; fs->free_blocks++; }],
    the loop of both [fs_write] and [fs_delete]. *)
Fixpoint release_blocks (inode : inode_t) (i n : nat) (fs : filesystem_t)
    : filesystem_t :=
  match n with
  | O => fs
  | S n' =>
      release_blocks inode (S i) n'
        (set_free_blocks (wrap32 (free_blocks fs + 1))
           (set_block_map (<[nth i (inode_blocks inode) 0%nat := 0]> (block_map fs)) fs))
  end.

Definition set_inode_block (i block_num : nat) (inode : inode_t) : inode_t :=
  Inode (name inode) (size inode) (<[i := block_num]> (inode_blocks inode))
        (num_blocks inode) (created inode) (modified inode) (is_directory inode).

(** How the allocation loop of [fs_write] is left: by running to its end, or
    by [return -1] at loop index [k], that is after [k] blocks were taken. *)
Inductive alloc_result :=
  | AllocDone
  | AllocNoSpace (k : nat).

Fixpoint allocate_blocks (src : list byte) (size needed_blocks : Z)
    (inode_num : nat) (i n : nat) (fs : filesystem_t)
    : alloc_result * filesystem_t :=
  match n with
  | O => (AllocDone, fs)
  | S n' =>
      match find_free_block fs with
      | (None, fs1) => (AllocNoSpace i, fs1)
      | (Some block_num, fs1) =>
          let len := if Z.of_nat i =? needed_blocks - 1
                     then size mod BLOCK_SIZE else BLOCK_SIZE in
          let fs2 := set_inodes
                       (alter (set_inode_block i block_num) inode_num (inodes fs1))
                       fs1 in
          let fs3 := set_blocks
                       (alter (fun b => Block (memcpy (data b) 0 src
                                                 (i * Z.to_nat BLOCK_SIZE) len))
                              block_num (blocks fs2))
                       fs2 in
          allocate_blocks src size needed_blocks inode_num (S i) n' fs3
      end
  end.

Definition needed_blocks_for (size : Z) : Z :=
  wrap32 (wrap64 (size + BLOCK_SIZE - 1) / BLOCK_SIZE).

Definition finish_write (size needed_blocks now : Z) (inode : inode_t) : inode_t :=
  Inode (name inode) (wrap32 size) (inode_blocks inode) (wrap8 needed_blocks)
        (created inode) now (is_directory inode).

Definition fs_write (fs : filesystem_t) (filename : string) (src : list byte)
    (size : Z) (now : Z) : Z * filesystem_t :=
  if size =? 0 then (-1, fs)
  else
    match lookup_name fs filename with
    | None => (-1, fs)
    | Some inode_num =>
        let inode := nth inode_num (inodes fs) zero_inode in
        let needed_blocks := needed_blocks_for size in
        if needed_blocks >? MAX_BLOCKS then (-1, fs)
        else
          let fs1 := release_blocks inode 0 (Z.to_nat (num_blocks inode)) fs in
          match allocate_blocks src size needed_blocks inode_num 0
                  (Z.to_nat needed_blocks) fs1 with
          | (AllocNoSpace _, fs2) => (-1, fs2)
          | (AllocDone, fs2) =>
              (to_int size,
               set_inodes
                 (alter (finish_write size needed_blocks now) inode_num (inodes fs2))
                 fs2)
          end
    end.

(** ** fs_read *)

Fixpoint read_blocks (fs : filesystem_t) (inode : inode_t) (to_read : Z)
    (i n : nat) (buffer : list byte) : list byte :=
  match n with
  | O => buffer
  | S n' =>
      let block_read_size := if Z.of_nat i =? num_blocks inode - 1
                             then to_read mod BLOCK_SIZE else BLOCK_SIZE in
      read_blocks fs inode to_read (S i) n'
        (memcpy buffer (i * Z.to_nat BLOCK_SIZE)
                (data (nth (nth i (inode_blocks inode) 0%nat) (blocks fs) zero_block))
                0 block_read_size)
  end.

(** [buffer] is the memory the caller's pointer designates (it may extend
    past [size] bytes); the result is the [int] returned and that memory
    after the call.  [fs] is not modified.  The parameter the source calls
    [size] is [max_size] here, to keep it apart from the inode field. *)
Definition fs_read (fs : filesystem_t) (filename : string) (buffer : list byte)
    (max_size : Z) : Z * list byte :=
  match lookup_name fs filename with
  | None => (-1, buffer)
  | Some inode_num =>
      let inode := nth inode_num (inodes fs) zero_inode in
      let to_read := if max_size <? size inode then max_size else size inode in
      (to_int to_read,
       read_blocks fs inode to_read 0 (Z.to_nat (num_blocks inode)) buffer)
  end.

(** ** fs_delete *)

Definition fs_delete (fs : filesystem_t) (filename : string) : Z * filesystem_t :=
  match lookup_name fs filename with
  | None => (-1, fs)
  | Some inode_num =>
      let inode := nth inode_num (inodes fs) zero_inode in
      let fs1 := release_blocks inode 0 (Z.to_nat (num_blocks inode)) fs in
      let fs2 := set_free_inodes (wrap32 (free_inodes fs1 + 1))
                   (set_inode_map (<[inode_num := 0]> (inode_map fs1)) fs1) in
      (0, set_inodes (<[inode_num := zero_inode]> (inodes fs2)) fs2)
  end.

(** ** fs_list_files *)

(** One row of the listing: the values [fs_list_files] passes to [printf]
    for a live inode, the two time stamps before [ctime_r] renders them. *)
Record listing_row := MkRow {
  row_name : string;
  row_size : Z;
  row_created : Z;
  row_modified : Z
}.

Definition row_of (inode : inode_t) : listing_row :=
  MkRow (name inode) (size inode) (created inode) (modified inode).

(** [for (i = i0; i < i0 + n; i++) if (fs->inode_map[i]) printf(row of inodes[i])] *)
Fixpoint list_rows_from (fs : filesystem_t) (i n : nat) : list listing_row :=
  match n with
  | O => []
  | S n' =>
      match inode_map fs !! i with
      | Some 0 | None => list_rows_from fs (S i) n'
      | Some _ => row_of (nth i (inodes fs) zero_inode) :: list_rows_from fs (S i) n'
      end
  end.

(** The rows [fs_list_files] prints after the header, in print order (the
    text layout of [printf] is not modelled). *)
Definition fs_list_files (fs : filesystem_t) : list listing_row :=
  list_rows_from fs 0 (Z.to_nat (total_inodes fs)).

(** ** Runs of the interface *)

Inductive op :=
  | Create (filename : string) (now : Z)
  | Write (filename : string) (src : list byte) (size : Z) (now : Z)
  | Read (filename : string) (buffer : list byte) (max_size : Z)
  | Delete (filename : string).

Definition step (fs : filesystem_t) (o : op) : filesystem_t :=
  match o with
  | Create filename now => snd (fs_create_file fs filename now)
  | Write filename src size now => snd (fs_write fs filename src size now)
  | Read _ _ _ => fs
  | Delete filename => snd (fs_delete fs filename)
  end.

Definition run (ops : list op) (fs : filesystem_t) : filesystem_t :=
  fold_left step ops fs.

(** States reachable from a fresh file system; failed calls count as steps
    (they return the state they leave behind). *)
Inductive reachable : filesystem_t -> Prop :=
  | reachable_init : reachable fs_create
  | reachable_step fs o : reachable fs -> reachable (step fs o).

(** [o] is a write to or a delete of the file [filename]. *)
Definition op_targets (o : op) (filename : string) : Prop :=
  match o with
  | Write f _ _ _ => f = filename
  | Delete f => f = filename
  | Create _ _ | Read _ _ _ => False
  end.

(** * Specification vocabulary *)

(** Number of entries of a used-map that are 0. *)
Fixpoint count_free (map : list Z) : Z :=
  match map with
  | [] => 0
  | v :: map' => (if v =? 0 then 1 else 0) + count_free map'
  end.

(** A block index is allocated when its map entry is non-zero. *)
Definition block_used (fs : filesystem_t) (b : nat) : Prop :=
  exists v, block_map fs !! b = Some v /\ v <> 0.

(** The block list of an inode: the first [num_blocks] entries of [blocks]. *)
Definition owned_by (inode : inode_t) : list nat :=
  take (Z.to_nat (num_blocks inode)) (inode_blocks inode).

(** The block lists of all live inodes, in table order. *)
Fixpoint owned (imap : list Z) (inos : list inode_t) : list nat :=
  match imap, inos with
  | m :: imap', inode :: inos' =>
      (if m =? 0 then [] else owned_by inode) ++ owned imap' inos'
  | _, _ => []
  end.

Definition owned_blocks (fs : filesystem_t) : list nat :=
  owned (inode_map fs) (inodes fs).

(** Sum of [num_blocks] over the live inodes. *)
Fixpoint live_num_blocks (imap : list Z) (inos : list inode_t) : Z :=
  match imap, inos with
  | m :: imap', inode :: inos' =>
      (if m =? 0 then 0 else num_blocks inode) + live_num_blocks imap' inos'
  | _, _ => 0
  end.

(** Inode slot [i] is live and holds [inode]. *)
Definition live (fs : filesystem_t) (i : nat) (inode : inode_t) : Prop :=
  (exists m, inode_map fs !! i = Some m /\ m <> 0) /\ inodes fs !! i = Some inode.

(** ** The invariant of the file system *)

(** The pool side: the map has [MAX_BLOCKS] entries, the counter agrees with
    it, and the block indices in [own] are pairwise different and allocated. *)
Definition pool_ok (own : list nat) (fs : filesystem_t) : Prop :=
  total_blocks fs = MAX_BLOCKS
  /\ length (block_map fs) = Z.to_nat MAX_BLOCKS
  /\ free_blocks fs = count_free (block_map fs)
  /\ NoDup own
  /\ forall b, b ∈ own -> block_used fs b.

Definition inode_ok (inode : inode_t) : Prop :=
  length (inode_blocks inode) = Z.to_nat MAX_BLOCKS
  /\ 0 <= num_blocks inode <= MAX_BLOCKS.

(** Live inodes have pairwise different names, shorter than [MAX_FILENAME]. *)
Definition names_ok (imap : list Z) (names : list string) : Prop :=
  (forall i j m1 m2 s,
      imap !! i = Some m1 -> m1 <> 0 -> imap !! j = Some m2 -> m2 <> 0 ->
      names !! i = Some s -> names !! j = Some s -> i = j)
  /\ (forall i m s,
      imap !! i = Some m -> m <> 0 -> names !! i = Some s ->
      strlen s < MAX_FILENAME).

(** The table side. *)
Definition table_ok (fs : filesystem_t) : Prop :=
  total_inodes fs = MAX_FILES
  /\ length (blocks fs) = Z.to_nat MAX_BLOCKS
  /\ length (inodes fs) = Z.to_nat MAX_FILES
  /\ length (inode_map fs) = Z.to_nat MAX_FILES
  /\ Forall inode_ok (inodes fs)
  /\ free_inodes fs = count_free (inode_map fs)
  /\ names_ok (inode_map fs) (name <$> inodes fs).

(** [fs_inv L fs]: the state is well formed, and the blocks of [L] are
    allocated, pairwise different and in no live inode's block list.  With
    [L = []] this is the invariant of the reachable states; a non-empty [L]
    tracks blocks that no inode owns any more. *)
Definition fs_inv (L : list nat) (fs : filesystem_t) : Prop :=
  pool_ok (L ++ owned_blocks fs) fs /\ table_ok fs.

(** An inode with its [blocks] array replaced. *)
Definition with_blocks (bs : list nat) (inode : inode_t) : inode_t :=
  Inode (name inode) (size inode) bs (num_blocks inode)
        (created inode) (modified inode) (is_directory inode).

(** What neither loop of [fs_write] touches. *)
Definition same_frame (fs fs' : filesystem_t) : Prop :=
  total_blocks fs' = total_blocks fs
  /\ total_inodes fs' = total_inodes fs
  /\ free_inodes fs' = free_inodes fs
  /\ inode_map fs' = inode_map fs
  /\ length (blocks fs') = length (blocks fs).

(** The state of the allocation loop of [fs_write] at loop index [i]: the
    inode table is the initial one [inos0] with only the block array of slot
    [inode_num] changed, the first [i] entries of that array are the blocks
    taken so far, and [c0] free blocks were there when the loop started at
    [fs0]. *)
Definition alloc_inv (rest : list nat) (fs0 : filesystem_t) (inode_num : nat)
    (inode0 : inode_t) (c0 : Z) (i : nat) (fs : filesystem_t) : Prop :=
  exists bs,
    length bs = Z.to_nat MAX_BLOCKS
    /\ inodes fs = <[inode_num := with_blocks bs inode0]> (inodes fs0)
    /\ same_frame fs0 fs
    /\ pool_ok (take i bs ++ rest) fs
    /\ count_free (block_map fs) + Z.of_nat i = c0.

(** ** Block contents *)

Definition block_ok (b : block_t) : Prop :=
  length (data b) = Z.to_nat BLOCK_SIZE.

(** Number of bytes [fs_write] copies into the [i]-th block of a file of
    [len] bytes in [needed] blocks (and [fs_read] copies out of it). *)
Definition chunk_len (len needed : Z) (i : nat) : Z :=
  if Z.of_nat i =? needed - 1 then len mod BLOCK_SIZE else BLOCK_SIZE.

(** The first [i] blocks of inode [inode_num] begin with the bytes of [src]
    that [fs_write] copies into them. *)
Definition stored (src : list byte) (len needed : Z) (inode_num : nat)
    (i : nat) (fs : filesystem_t) : Prop :=
  forall i', (i' < i)%nat ->
    let b := nth i' (inode_blocks (nth inode_num (inodes fs) zero_inode)) 0%nat in
    let c := Z.to_nat (chunk_len len needed i') in
    take c (data (nth b (blocks fs) zero_block))
    = take c (drop (i' * Z.to_nat BLOCK_SIZE) src).

(** ** Concrete runs used below *)

Definition bytes (n : nat) (b : byte) : list byte := replicate n b.

(** File "a" holds blocks 0 and 1, file "b" blocks 2 to 14, block 15 is free. *)
Definition ops_two_files : list op :=
  [Create "a" 1; Write "a" (bytes 128 x41) 128 2;
   Create "b" 3; Write "b" (bytes 832 x42) 832 4].

Definition fs_two_files : filesystem_t := run ops_two_files fs_create.

(** A write of four blocks to "a" in that state: three blocks can be had. *)
Definition fs_after_nospace : filesystem_t :=
  snd (fs_write fs_two_files "a" (bytes 256 x43) 256 5).

(** File "a" holds 100 bytes in blocks 0 and 1, file "b" 895 bytes in blocks
    2 to 15: no block is free. *)
Definition ops_full_pool : list op :=
  [Create "a" 1; Write "a" (bytes 100 x41) 100 2;
   Create "b" 3; Write "b" (bytes 895 x42) 895 4].

(** 138 bytes whose first 128 are what blocks 0 and 1 hold after
    [ops_full_pool]. *)
Definition src_same_prefix : list byte :=
  bytes 100 x41 ++ bytes 28 x00 ++ bytes 10 x43.

(** * Arithmetic of the counters *)

Lemma wrap32_small z : 0 <= z < 2 ^ 32 -> wrap32 z = z.
Proof. intros H. unfold wrap32. apply Z.mod_small. exact H. Qed.

Lemma wrap8_small z : 0 <= z < 2 ^ 8 -> wrap8 z = z.
Proof. intros H. unfold wrap8. apply Z.mod_small. exact H. Qed.

Lemma to_int_small z : 0 <= z < 2 ^ 31 -> to_int z = z.
Proof. intros H. unfold to_int. rewrite Z.mod_small; lia. Qed.

Lemma MAX_BLOCKS_eq : MAX_BLOCKS = 16.
Proof. reflexivity. Qed.

(** * Used-maps *)

Section used_map.
Implicit Types (map : list Z) (i j n : nat).

Lemma count_free_range map : 0 <= count_free map <= Z.of_nat (length map).
Proof.
  induction map as [|v map IH]; simpl; [lia|].
  destruct (v =? 0); lia.
Qed.

Lemma count_free_insert map i v w :
  map !! i = Some v ->
  count_free (<[i := w]> map)
  = count_free map - (if v =? 0 then 1 else 0) + (if w =? 0 then 1 else 0).
Proof.
  revert i. induction map as [|x map IH]; intros [|i] H; simpl in *; try discriminate.
  - injection H as ->. lia.
  - rewrite (IH i H). lia.
Qed.

Lemma count_free_none map :
  (forall k, map !! k <> Some 0) -> count_free map = 0.
Proof.
  induction map as [|x map IH]; intros H; simpl; [reflexivity|].
  rewrite IH.
  - destruct (Z.eqb_spec x 0) as [->|]; [|reflexivity].
    exfalso. apply (H 0%nat). reflexivity.
  - intros k. apply (H (S k)).
Qed.

Lemma count_free_replicate n : count_free (replicate n 0) = Z.of_nat n.
Proof. induction n as [|n IH]; simpl; [reflexivity|]. rewrite IH. lia. Qed.

Lemma first_free_Some map i n j :
  first_free map i n = Some j ->
  (i <= j < i + n)%nat /\ map !! j = Some 0
  /\ forall k, (i <= k < j)%nat -> map !! k <> Some 0.
Proof.
  revert i. induction n as [|n IH]; intros i H; simpl in H; [discriminate|].
  destruct (map !! i) as [[| |]|] eqn:E.
  1: { injection H as <-. repeat split; [lia|lia|exact E|]. intros k ?; lia. }
  all: destruct (IH _ H) as (Hr & Hj & Hlow); repeat split; [lia|lia|exact Hj|];
    intros k Hk; destruct (decide (k = i)) as [->|]; [rewrite E; discriminate|];
    apply Hlow; lia.
Qed.

Lemma first_free_None map i n :
  first_free map i n = None ->
  forall k, (i <= k < i + n)%nat -> map !! k <> Some 0.
Proof.
  revert i. induction n as [|n IH]; intros i H k Hk; simpl in H; [lia|].
  destruct (map !! i) as [[| |]|] eqn:E; try discriminate.
  all: destruct (decide (k = i)) as [->|]; [rewrite E; discriminate|];
    apply (IH _ H); lia.
Qed.

Lemma first_free_is_Some map i n k :
  (i <= k < i + n)%nat -> map !! k = Some 0 -> is_Some (first_free map i n).
Proof.
  intros Hk E. destruct (first_free map i n) eqn:F; [eauto|].
  exfalso. exact (first_free_None _ _ _ F k Hk E).
Qed.

Lemma first_free_full map n :
  length map = n -> first_free map 0 n = None -> count_free map = 0.
Proof.
  intros Hlen F. apply count_free_none. intros k E.
  apply (first_free_None _ _ _ F k); [|exact E].
  apply lookup_lt_Some in E. lia.
Qed.
End used_map.

(** * Block lists of the live inodes *)

Section owned_blocks.
Implicit Types (imap : list Z) (inos : list inode_t) (ix : nat).

Lemma alter_lookup_insert {A} (f : A -> A) (l : list A) ix x :
  l !! ix = Some x -> alter f ix l = <[ix := f x]> l.
Proof.
  revert ix. induction l as [|y l IH]; intros [|ix] H; simpl in *; try discriminate.
  - injection H as ->. reflexivity.
  - f_equal. apply IH. exact H.
Qed.

(** The block list of a live slot can be moved to the front. *)
Lemma owned_split imap inos ix m inode :
  imap !! ix = Some m -> m <> 0 -> inos !! ix = Some inode ->
  owned imap inos ≡ₚ owned_by inode ++ owned (<[ix := 0]> imap) inos.
Proof.
  revert inos ix. induction imap as [|m' imap IH]; intros [|ino' inos] [|ix] Hm Hne Hi;
    simpl in *; try discriminate.
  - injection Hm as ->. injection Hi as ->.
    destruct (Z.eqb_spec m 0); [contradiction|]. reflexivity.
  - rewrite (IH inos ix Hm Hne Hi).
    rewrite !app_assoc. f_equiv. apply Permutation_app_comm.
Qed.

(** A dead slot contributes nothing, whatever it holds. *)
Lemma owned_dead_insert imap inos ix inode :
  imap !! ix = Some 0 ->
  owned imap (<[ix := inode]> inos) = owned imap inos.
Proof.
  revert inos ix. induction imap as [|m' imap IH]; intros [|ino' inos] [|ix] Hm;
    simpl in *; try discriminate; try reflexivity.
  - injection Hm as ->. reflexivity.
  - f_equal. apply IH. exact Hm.
Qed.

Lemma owned_kill_insert imap inos ix inode :
  owned (<[ix := 0]> imap) (<[ix := inode]> inos) = owned (<[ix := 0]> imap) inos.
Proof.
  destruct (decide (ix < length imap)%nat) as [Hlt|Hge].
  - apply owned_dead_insert. apply list_lookup_insert_eq. exact Hlt.
  - rewrite (list_insert_ge imap) by lia.
    revert inos ix Hge. induction imap as [|m' imap IH]; intros [|ino' inos] [|ix] Hge;
      simpl in *; try reflexivity; try lia.
    f_equal. apply IH. lia.
Qed.

Lemma elem_of_owned imap inos b :
  b ∈ owned imap inos <->
  exists i m inode, imap !! i = Some m /\ m <> 0 /\ inos !! i = Some inode
                    /\ b ∈ owned_by inode.
Proof.
  revert inos. induction imap as [|m' imap IH]; intros [|ino' inos]; simpl.
  1-3: split; [intros H; inversion H|intros ([|?] & ? & ? & H1 & _ & H2 & _); discriminate].
  rewrite elem_of_app, IH. split.
  - intros [H|(i & m & inode & ?)].
    + destruct (Z.eqb_spec m' 0); [inversion H|].
      exists 0%nat, m', ino'. auto.
    + exists (S i), m, inode. auto.
  - intros ([|i] & m & inode & Hm & Hne & Hi & Hb); simpl in *.
    + injection Hm as ->. injection Hi as ->. left.
      destruct (Z.eqb_spec m 0); [contradiction|exact Hb].
    + right. exists i, m, inode. auto.
Qed.

Lemma live_num_blocks_length imap inos :
  Forall inode_ok inos ->
  live_num_blocks imap inos = Z.of_nat (length (owned imap inos)).
Proof.
  revert inos. induction imap as [|m imap IH]; intros [|inode inos] Hok;
    simpl; try reflexivity.
  apply Forall_cons in Hok as [[Hlen Hn] Hok].
  rewrite length_app, (IH _ Hok). destruct (m =? 0); simpl; [lia|].
  unfold owned_by. rewrite length_take, Hlen. lia.
Qed.
End owned_blocks.

(** * The pool invariant *)

Lemma pool_ok_perm own own' fs : own ≡ₚ own' -> pool_ok own fs -> pool_ok own' fs.
Proof.
  intros HP (Ht & Hl & Hf & Hnd & Hu). repeat split; try assumption.
  - rewrite <- HP. exact Hnd.
  - intros b Hb. apply Hu. rewrite HP. exact Hb.
Qed.

Lemma pool_ok_app_r own own' fs : pool_ok (own ++ own') fs -> pool_ok own' fs.
Proof.
  intros (Ht & Hl & Hf & Hnd & Hu). repeat split; try assumption.
  - apply NoDup_app in Hnd. tauto.
  - intros b Hb. apply Hu. apply elem_of_app. auto.
Qed.

Lemma pool_ok_count own fs :
  pool_ok own fs -> 0 <= free_blocks fs <= MAX_BLOCKS.
Proof.
  intros (Ht & Hl & Hf & _). rewrite Hf.
  pose proof (count_free_range (block_map fs)) as H. rewrite Hl in H.
  rewrite Z2Nat.id in H by (rewrite MAX_BLOCKS_eq; lia). exact H.
Qed.

(** * The two loops of fs_write *)

Lemma release_blocks_frame inode n i fs :
  let fs' := release_blocks inode i n fs in
  same_frame fs fs' /\ inodes fs' = inodes fs /\ blocks fs' = blocks fs.
Proof.
  revert i fs. induction n as [|n IH]; intros i fs; simpl.
  - unfold same_frame. auto 10.
  - destruct (IH (S i)
      (set_free_blocks (wrap32 (free_blocks fs + 1))
         (set_block_map (<[nth i (inode_blocks inode) 0%nat := 0]> (block_map fs)) fs)))
      as ((H1 & H2 & H3 & H4 & H5) & H6 & H7).
    unfold same_frame. simpl in *. auto 10.
Qed.

Lemma release_blocks_zero inode n i fs b :
  block_map fs !! b = Some 0 ->
  block_map (release_blocks inode i n fs) !! b = Some 0.
Proof.
  revert i fs. induction n as [|n IH]; intros i fs Hb; simpl; [exact Hb|].
  apply IH. simpl.
  destruct (decide (nth i (inode_blocks inode) 0%nat = b)) as [->|Hne].
  - apply list_lookup_insert_eq. apply lookup_lt_Some in Hb. exact Hb.
  - rewrite list_lookup_insert_ne by exact Hne. exact Hb.
Qed.

(** Releasing a block that is allocated and different from the other owned
    ones keeps the pool invariant for those and raises the count by one. *)
Lemma pool_ok_release_one x own fs :
  pool_ok (x :: own) fs ->
  let fs' := set_free_blocks (wrap32 (free_blocks fs + 1))
               (set_block_map (<[x := 0]> (block_map fs)) fs) in
  pool_ok own fs'
  /\ count_free (block_map fs') = count_free (block_map fs) + 1
  /\ block_map fs' !! x = Some 0.
Proof.
  intros (Ht & Hl & Hf & Hnd & Hu). simpl.
  apply NoDup_cons in Hnd as [Hx Hnd].
  destruct (Hu x) as (v & Hv & Hv0); [left|].
  assert (Hc : count_free (<[x := 0]> (block_map fs)) = count_free (block_map fs) + 1).
  { rewrite (count_free_insert _ _ _ _ Hv). destruct (Z.eqb_spec v 0); [contradiction|].
    simpl. lia. }
  split; [|split; [exact Hc|]].
  - repeat split; simpl; try assumption.
    + rewrite length_insert. exact Hl.
    + rewrite Hc, Hf. apply wrap32_small.
      pose proof (count_free_range (<[x := 0]> (block_map fs))) as Hr.
      rewrite length_insert, Hl, Hc in Hr. rewrite MAX_BLOCKS_eq in Hr. lia.
    + intros b Hb. destruct (Hu b) as (w & Hw & Hw0); [right; exact Hb|].
      exists w. split; [|exact Hw0]. simpl.
      rewrite list_lookup_insert_ne; [exact Hw|]. intros ->. contradiction.
  - apply list_lookup_insert_eq. apply lookup_lt_Some in Hv. exact Hv.
Qed.

Lemma release_blocks_pool inode n i fs rest :
  (i + n <= length (inode_blocks inode))%nat ->
  pool_ok (take n (drop i (inode_blocks inode)) ++ rest) fs ->
  let fs' := release_blocks inode i n fs in
  pool_ok rest fs'
  /\ count_free (block_map fs') = count_free (block_map fs) + Z.of_nat n
  /\ forall b, b ∈ take n (drop i (inode_blocks inode)) -> block_map fs' !! b = Some 0.
Proof.
  revert i fs. induction n as [|n IH]; intros i fs Hlen Hp; simpl.
  - split; [exact Hp|]. split; [lia|]. intros b Hb. inversion Hb.
  - destruct (lookup_lt_is_Some_2 (inode_blocks inode) i) as [x Hx]; [lia|].
    rewrite (nth_lookup_Some _ _ _ _ Hx).
    rewrite (drop_S _ _ _ Hx) in Hp |- *. simpl in Hp |- *.
    destruct (pool_ok_release_one _ _ _ Hp) as (Hp1 & Hc1 & Hx0).
    destruct (IH (S i) _ ltac:(lia) Hp1) as (Hp2 & Hc2 & Hz).
    split; [exact Hp2|]. split; [rewrite Hc2, Hc1; lia|].
    intros b Hb. apply elem_of_cons in Hb as [->|Hb].
    + apply release_blocks_zero. exact Hx0.
    + apply Hz. exact Hb.
Qed.

(** The owned blocks and the free blocks together fit in the pool. *)
Lemma pool_ok_bound own fs :
  pool_ok own fs -> free_blocks fs + Z.of_nat (length own) <= MAX_BLOCKS.
Proof.
  intros Hp.
  destruct (release_blocks_pool (with_blocks own zero_inode) (length own) 0 fs [])
    as (Hp' & Hc & _).
  - simpl. lia.
  - simpl. rewrite firstn_all, app_nil_r. exact Hp.
  - destruct Hp as (_ & _ & -> & _). destruct Hp' as (_ & Hl & _).
    pose proof (count_free_range
      (block_map (release_blocks (with_blocks own zero_inode) 0 (length own) fs))) as Hr.
    rewrite Hl, Hc in Hr. rewrite MAX_BLOCKS_eq in *. lia.
Qed.

Lemma find_free_block_Some fs b fs' :
  find_free_block fs = (Some b, fs') ->
  block_map fs !! b = Some 0
  /\ (b < Z.to_nat (total_blocks fs))%nat
  /\ (forall k, (k < b)%nat -> block_map fs !! k <> Some 0)
  /\ fs' = set_free_blocks (wrap32 (free_blocks fs - 1))
             (set_block_map (<[b := 1]> (block_map fs)) fs).
Proof.
  unfold find_free_block. intros H.
  destruct (first_free _ _ _) as [j|] eqn:F; [|discriminate].
  injection H as -> <-.
  destruct (first_free_Some _ _ _ _ F) as (Hr & Hj & Hlow).
  repeat split; [exact Hj|lia|]. intros k Hk. apply Hlow. lia.
Qed.

Lemma find_free_block_None fs fs' :
  find_free_block fs = (None, fs') ->
  fs' = fs
  /\ forall k, (k < Z.to_nat (total_blocks fs))%nat -> block_map fs !! k <> Some 0.
Proof.
  unfold find_free_block. intros H.
  destruct (first_free _ _ _) as [j|] eqn:F; [discriminate|].
  injection H as <-. split; [reflexivity|].
  intros k Hk. apply (first_free_None _ _ _ F). lia.
Qed.

(** Taking a free block keeps the pool invariant with that block added. *)
Lemma pool_ok_take_one own fs b :
  pool_ok own fs -> block_map fs !! b = Some 0 ->
  let fs' := set_free_blocks (wrap32 (free_blocks fs - 1))
               (set_block_map (<[b := 1]> (block_map fs)) fs) in
  pool_ok (own ++ [b]) fs'
  /\ count_free (block_map fs') = count_free (block_map fs) - 1.
Proof.
  intros (Ht & Hl & Hf & Hnd & Hu) Hb. simpl.
  assert (Hc : count_free (<[b := 1]> (block_map fs)) = count_free (block_map fs) - 1).
  { rewrite (count_free_insert _ _ _ _ Hb). simpl. lia. }
  assert (Hlt : (b < length (block_map fs))%nat) by (apply lookup_lt_Some in Hb; exact Hb).
  assert (Hfresh : b ∉ own).
  { intros Hin. destruct (Hu b Hin) as (v & Hv & Hv0). congruence. }
  split; [|exact Hc].
  repeat split; simpl; try assumption.
  - rewrite length_insert. exact Hl.
  - rewrite Hc, Hf. apply wrap32_small.
    pose proof (count_free_range (<[b := 1]> (block_map fs))) as Hr.
    pose proof (count_free_range (block_map fs)) as Hr'.
    rewrite Hc in Hr. rewrite Hl, MAX_BLOCKS_eq in Hr'. lia.
  - apply NoDup_app. split; [exact Hnd|]. split; [|apply NoDup_singleton].
    intros x Hx Hxb. apply list_elem_of_singleton in Hxb as ->. contradiction.
  - intros x Hx. apply elem_of_app in Hx as [Hx|Hx].
    + destruct (Hu x Hx) as (v & Hv & Hv0). exists v. split; [|exact Hv0]. simpl.
      rewrite list_lookup_insert_ne; [exact Hv|]. intros ->. contradiction.
    + apply list_elem_of_singleton in Hx as ->. exists 1. split; [|lia]. simpl.
      apply list_lookup_insert_eq. exact Hlt.
Qed.

Lemma alloc_inv_step rest fs0 ix inode0 c0 i fs b f :
  (i < Z.to_nat MAX_BLOCKS)%nat ->
  (ix < length (inodes fs0))%nat ->
  alloc_inv rest fs0 ix inode0 c0 i fs ->
  block_map fs !! b = Some 0 ->
  let fs1 := set_free_blocks (wrap32 (free_blocks fs - 1))
               (set_block_map (<[b := 1]> (block_map fs)) fs) in
  let fs2 := set_inodes (alter (set_inode_block i b) ix (inodes fs1)) fs1 in
  let fs3 := set_blocks (alter f b (blocks fs2)) fs2 in
  alloc_inv rest fs0 ix inode0 c0 (S i) fs3.
Proof.
  intros Hi Hix (bs & Hlen & Hinos & Hframe & Hp & Hc) Hb. simpl.
  destruct (pool_ok_take_one _ _ _ Hp Hb) as [Hp' Hc'].
  exists (<[i := b]> bs). split; [rewrite length_insert; exact Hlen|].
  split; [|split; [|split]].
  - simpl. rewrite Hinos.
    rewrite (alter_lookup_insert _ _ _ (with_blocks bs inode0))
      by (apply list_lookup_insert_eq; exact Hix).
    rewrite list_insert_insert_eq. reflexivity.
  - destruct Hframe as (H1 & H2 & H3 & H4 & H5).
    unfold same_frame. simpl. rewrite length_alter. auto.
  - assert (Htake : take (S i) (<[i := b]> bs) = take i bs ++ [b]).
    { rewrite (take_S_r _ _ b) by (apply list_lookup_insert_eq; lia).
      rewrite take_insert_ge by lia. reflexivity. }
    rewrite Htake.
    eapply pool_ok_perm; [|exact Hp'].
    rewrite <- !app_assoc. f_equiv. apply Permutation_app_comm.
  - simpl in Hc' |- *. rewrite Hc'. lia.
Qed.

Lemma allocate_blocks_spec src size needed rest fs0 ix inode0 c0 n i fs :
  (i + n <= Z.to_nat MAX_BLOCKS)%nat ->
  (ix < length (inodes fs0))%nat ->
  alloc_inv rest fs0 ix inode0 c0 i fs ->
  match allocate_blocks src size needed ix i n fs with
  | (AllocDone, fs') => alloc_inv rest fs0 ix inode0 c0 (i + n) fs'
  | (AllocNoSpace k, fs') =>
      (i <= k < i + n)%nat
      /\ alloc_inv rest fs0 ix inode0 c0 k fs'
      /\ count_free (block_map fs') = 0
  end.
Proof.
  revert i fs. induction n as [|n IH]; intros i fs Hin Hix Hinv; simpl.
  - rewrite Nat.add_0_r. exact Hinv.
  - destruct (find_free_block fs) as [[b|] fs1] eqn:F.
    + destruct (find_free_block_Some _ _ _ F) as (Hb & _ & _ & ->).
      pose proof (alloc_inv_step rest fs0 ix inode0 c0 i fs b
        (fun blk => Block (memcpy (data blk) 0 src (i * Z.to_nat BLOCK_SIZE)
                       (if Z.of_nat i =? needed - 1 then size mod BLOCK_SIZE
                        else BLOCK_SIZE)))
        ltac:(lia) Hix Hinv Hb) as Hstep.
      specialize (IH (S i) _ ltac:(lia) Hix Hstep).
      destruct (allocate_blocks _ _ _ _ (S i) n _) as [[|k] fs'].
      * replace (i + S n)%nat with (S i + n)%nat by lia. exact IH.
      * destruct IH as (Hk & Hinv' & Hz). split; [lia|]. split; assumption.
    + destruct (find_free_block_None _ _ F) as (-> & Hfull).
      split; [lia|]. split; [exact Hinv|].
      destruct Hinv as (bs & _ & _ & _ & (Ht & Hl & _) & _).
      apply count_free_none. intros k E. apply (Hfull k); [|exact E].
      apply lookup_lt_Some in E. rewrite Ht. lia.
Qed.

(** * Name lookup *)

Lemma live_named_true fs filename i :
  live_named fs filename i = true <->
  exists m inode, inode_map fs !! i = Some m /\ m <> 0
                  /\ inodes fs !! i = Some inode /\ name inode = filename.
Proof.
  unfold live_named. split.
  - destruct (inode_map fs !! i) as [m|]; [|discriminate].
    destruct (inodes fs !! i) as [inode|]; [|discriminate].
    intros H. apply andb_true_iff in H as [H1 H2].
    exists m, inode. repeat split.
    + intros ->. discriminate.
    + apply String.eqb_eq. exact H2.
  - intros (m & inode & -> & Hm & -> & Hn).
    apply andb_true_iff. split.
    + destruct (Z.eqb_spec m 0); [contradiction|reflexivity].
    + apply String.eqb_eq. exact Hn.
Qed.

Lemma lookup_from_Some fs filename n i j :
  lookup_from fs filename i n = Some j ->
  (i <= j < i + n)%nat /\ live_named fs filename j = true
  /\ forall k, (i <= k < j)%nat -> live_named fs filename k = false.
Proof.
  revert i. induction n as [|n IH]; intros i H; simpl in H; [discriminate|].
  destruct (live_named fs filename i) eqn:E.
  - injection H as <-. repeat split; [lia|lia|exact E|]. intros k ?; lia.
  - destruct (IH _ H) as (Hr & Hj & Hlow). repeat split; [lia|lia|exact Hj|].
    intros k Hk. destruct (decide (k = i)) as [->|]; [exact E|]. apply Hlow. lia.
Qed.

Lemma lookup_from_None fs filename n i :
  lookup_from fs filename i n = None ->
  forall k, (i <= k < i + n)%nat -> live_named fs filename k = false.
Proof.
  revert i. induction n as [|n IH]; intros i H k Hk; simpl in H; [lia|].
  destruct (live_named fs filename i) eqn:E; [discriminate|].
  destruct (decide (k = i)) as [->|]; [exact E|]. apply (IH _ H). lia.
Qed.

Lemma lookup_name_Some fs filename ix :
  lookup_name fs filename = Some ix ->
  exists m inode,
    inode_map fs !! ix = Some m /\ m <> 0 /\ inodes fs !! ix = Some inode
    /\ name inode = filename /\ nth ix (inodes fs) zero_inode = inode.
Proof.
  intros H. apply lookup_from_Some in H as (_ & H & _).
  apply live_named_true in H as (m & inode & Hm & Hne & Hi & Hn).
  exists m, inode. repeat split; try assumption.
  apply nth_lookup_Some. exact Hi.
Qed.

Lemma lookup_name_None fs filename i m inode :
  length (inode_map fs) = Z.to_nat (total_inodes fs) ->
  lookup_name fs filename = None ->
  inode_map fs !! i = Some m -> m <> 0 -> inodes fs !! i = Some inode ->
  name inode <> filename.
Proof.
  intros Hlen H Hm Hne Hi Hn.
  assert (live_named fs filename i = false) as E.
  { apply (lookup_from_None _ _ _ _ H). apply lookup_lt_Some in Hm. lia. }
  assert (live_named fs filename i = true) as E'.
  { apply live_named_true. eauto 10. }
  congruence.
Qed.

(** * fs_write and the invariant *)

Lemma with_blocks_id inode : with_blocks (inode_blocks inode) inode = inode.
Proof. destruct inode. reflexivity. Qed.

Lemma fs_inv_weaken L L' fs : fs_inv (L ++ L') fs -> fs_inv L fs.
Proof.
  intros [Hp Ht]. split; [|exact Ht].
  apply (pool_ok_app_r L'). eapply pool_ok_perm; [|exact Hp].
  rewrite <- !app_assoc. apply Permutation_app_swap_app.
Qed.

(** The state in which the allocation loop starts. *)
Lemma release_alloc_inv L fs ix m inode0 :
  fs_inv L fs ->
  inode_map fs !! ix = Some m -> m <> 0 -> inodes fs !! ix = Some inode0 ->
  alloc_inv (L ++ owned (<[ix := 0]> (inode_map fs)) (inodes fs)) fs ix inode0
    (free_blocks fs + num_blocks inode0) 0
    (release_blocks inode0 0 (Z.to_nat (num_blocks inode0)) fs).
Proof.
  intros [Hp Ht] Hm Hne Hi.
  set (rest := L ++ owned (<[ix := 0]> (inode_map fs)) (inodes fs)).
  destruct Ht as (Hti & Hlb & Hli & Hlm & Hok & Hfi & Hnames).
  assert (Hino : inode_ok inode0).
  { rewrite Forall_forall in Hok. apply Hok. eapply list_elem_of_lookup_2. exact Hi. }
  destruct Hino as [Hlen0 Hn0].
  assert (Hp0 : pool_ok (take (Z.to_nat (num_blocks inode0))
                           (drop 0 (inode_blocks inode0)) ++ rest) fs).
  { eapply pool_ok_perm; [|exact Hp]. unfold owned_blocks, rest. simpl.
    rewrite (owned_split _ _ _ _ _ Hm Hne Hi). apply Permutation_app_swap_app. }
  rewrite MAX_BLOCKS_eq in Hn0.
  destruct (release_blocks_pool inode0 (Z.to_nat (num_blocks inode0)) 0 fs rest)
    as (Hp1 & Hc1 & _); [rewrite Hlen0, MAX_BLOCKS_eq; lia|exact Hp0|].
  destruct (release_blocks_frame inode0 (Z.to_nat (num_blocks inode0)) 0 fs)
    as (Hframe & Hinos & _).
  exists (inode_blocks inode0). split; [exact Hlen0|]. split; [|split; [exact Hframe|split]].
  - rewrite Hinos, with_blocks_id, list_insert_id; [reflexivity|exact Hi].
  - exact Hp1.
  - rewrite Hc1. destruct Hp as (_ & _ & -> & _). lia.
Qed.

Lemma write_loops L fs ix m inode0 src size needed :
  fs_inv L fs ->
  inode_map fs !! ix = Some m -> m <> 0 -> inodes fs !! ix = Some inode0 ->
  0 <= needed <= MAX_BLOCKS ->
  let rest := L ++ owned (<[ix := 0]> (inode_map fs)) (inodes fs) in
  let c0 := free_blocks fs + num_blocks inode0 in
  match allocate_blocks src size needed ix 0 (Z.to_nat needed)
          (release_blocks inode0 0 (Z.to_nat (num_blocks inode0)) fs) with
  | (AllocDone, fs2) => alloc_inv rest fs ix inode0 c0 (Z.to_nat needed) fs2
  | (AllocNoSpace k, fs2) =>
      (k < Z.to_nat needed)%nat
      /\ alloc_inv rest fs ix inode0 c0 k fs2
      /\ count_free (block_map fs2) = 0
  end.
Proof.
  intros Hinv Hm Hne Hi Hneeded rest c0.
  pose proof (release_alloc_inv L fs ix m inode0 Hinv Hm Hne Hi) as Hinv0.
  pose proof (allocate_blocks_spec src size needed rest fs ix inode0 c0
                (Z.to_nat needed) 0
                (release_blocks inode0 0 (Z.to_nat (num_blocks inode0)) fs)) as Hspec.
  simpl in Hspec.
  specialize (Hspec ltac:(rewrite MAX_BLOCKS_eq in *; lia)
                    ltac:(apply lookup_lt_Some in Hi; exact Hi) Hinv0).
  destruct (allocate_blocks _ _ _ _ _ _ _) as [[|k] fs2]; [exact Hspec|].
  destruct Hspec as (Hk & Ha & Hz). split; [lia|]. split; assumption.
Qed.

Lemma owned_update imap inos ix m inode' :
  imap !! ix = Some m -> m <> 0 -> (ix < length inos)%nat ->
  owned imap (<[ix := inode']> inos)
  ≡ₚ owned_by inode' ++ owned (<[ix := 0]> imap) inos.
Proof.
  intros Hm Hne Hlt.
  rewrite (owned_split imap _ ix m inode' Hm Hne)
    by (apply list_lookup_insert_eq; exact Hlt).
  rewrite owned_kill_insert. reflexivity.
Qed.

(** Replacing a live inode by one with the same name keeps the table side. *)
Lemma table_ok_update fs fs' ix inode inode' :
  table_ok fs -> same_frame fs fs' ->
  inodes fs !! ix = Some inode ->
  inodes fs' = <[ix := inode']> (inodes fs) ->
  name inode' = name inode -> inode_ok inode' ->
  table_ok fs'.
Proof.
  intros (Hti & Hlb & Hli & Hlm & Hok & Hfi & Hnames) (F1 & F2 & F3 & F4 & F5)
    Hi Hinos Hname Hok'.
  unfold table_ok. rewrite Hinos, F2, F3, F4, F5, length_insert.
  repeat split; try assumption.
  - apply Forall_insert; assumption.
  - rewrite list_fmap_insert, Hname, list_insert_id; [apply Hnames|].
    rewrite list_lookup_fmap, Hi. reflexivity.
  - rewrite list_fmap_insert, Hname, list_insert_id; [apply Hnames|].
    rewrite list_lookup_fmap, Hi. reflexivity.
Qed.

Lemma write_done_inv L fs ix m inode0 c0 size needed now fs2 :
  table_ok fs ->
  inode_map fs !! ix = Some m -> m <> 0 -> inodes fs !! ix = Some inode0 ->
  0 <= needed <= MAX_BLOCKS ->
  alloc_inv (L ++ owned (<[ix := 0]> (inode_map fs)) (inodes fs))
            fs ix inode0 c0 (Z.to_nat needed) fs2 ->
  let fs' := set_inodes (alter (finish_write size needed now) ix (inodes fs2)) fs2 in
  fs_inv L fs'
  /\ free_blocks fs' = c0 - needed
  /\ free_blocks fs' + needed <= MAX_BLOCKS
  /\ exists bs, inodes fs'
       = <[ix := finish_write size needed now (with_blocks bs inode0)]> (inodes fs).
Proof.
  intros Ht Hm Hne Hi Hneeded (bs & Hlen & Hinos & Hframe & Hp & Hc). simpl.
  assert (Hix : (ix < length (inodes fs))%nat) by (apply lookup_lt_Some in Hi; exact Hi).
  assert (Hinos' : alter (finish_write size needed now) ix (inodes fs2)
                   = <[ix := finish_write size needed now (with_blocks bs inode0)]>
                       (inodes fs)).
  { rewrite Hinos.
    rewrite (alter_lookup_insert _ _ _ (with_blocks bs inode0))
      by (apply list_lookup_insert_eq; exact Hix).
    apply list_insert_insert_eq. }
  assert (Hw : wrap8 needed = needed).
  { apply wrap8_small. rewrite MAX_BLOCKS_eq in Hneeded. lia. }
  split; [split|split; [|split]].
  - unfold owned_blocks. simpl. rewrite Hinos'.
    destruct Hframe as (_ & _ & _ & -> & _).
    eapply pool_ok_perm; [|exact Hp].
    rewrite (owned_update _ _ _ _ _ Hm Hne Hix).
    unfold owned_by at 1. simpl. rewrite Hw.
    apply Permutation_app_swap_app.
  - refine (table_ok_update fs
              (set_inodes (alter (finish_write size needed now) ix (inodes fs2)) fs2)
              ix inode0
              (finish_write size needed now (with_blocks bs inode0)) Ht _ Hi Hinos' _ _).
    + destruct Hframe as (F1 & F2 & F3 & F4 & F5). unfold same_frame. simpl. auto.
    + reflexivity.
    + split; simpl; [exact Hlen|]. rewrite Hw. exact Hneeded.
  - simpl. destruct Hp as (_ & _ & -> & _). lia.
  - simpl. pose proof (pool_ok_bound _ _ Hp) as Hb.
    rewrite length_app, length_take, Hlen in Hb. rewrite MAX_BLOCKS_eq in *. lia.
  - exists bs. exact Hinos'.
Qed.

Lemma write_nospace_inv L fs ix m inode0 k fs2 :
  fs_inv L fs ->
  inode_map fs !! ix = Some m -> m <> 0 -> inodes fs !! ix = Some inode0 ->
  alloc_inv (L ++ owned (<[ix := 0]> (inode_map fs)) (inodes fs))
            fs ix inode0 (free_blocks fs + num_blocks inode0) k fs2 ->
  count_free (block_map fs2) = 0 ->
  exists bs,
    length bs = Z.to_nat MAX_BLOCKS
    /\ inodes fs2 = <[ix := with_blocks bs inode0]> (inodes fs)
    /\ same_frame fs fs2
    /\ Z.of_nat k = free_blocks fs + num_blocks inode0
    /\ free_blocks fs2 = 0
    /\ fs_inv (L ++ drop (Z.to_nat (num_blocks inode0)) (take k bs)) fs2.
Proof.
  intros [Hp0 Ht] Hm Hne Hi (bs & Hlen & Hinos & Hframe & Hp & Hc) Hz.
  assert (Hix : (ix < length (inodes fs))%nat) by (apply lookup_lt_Some in Hi; exact Hi).
  pose proof (pool_ok_count _ _ Hp0) as Hfree.
  assert (Hino : inode_ok inode0).
  { destruct Ht as (_ & _ & _ & _ & Hok & _). rewrite Forall_forall in Hok.
    apply Hok. eapply list_elem_of_lookup_2. exact Hi. }
  destruct Hino as [Hlen0 Hn0].
  assert (Hk : Z.of_nat k = free_blocks fs + num_blocks inode0) by lia.
  exists bs.
  split; [exact Hlen|]. split; [exact Hinos|]. split; [exact Hframe|].
  split; [exact Hk|]. split; [|split].
  - destruct Hp as (_ & _ & -> & _). exact Hz.
  - unfold owned_blocks. rewrite Hinos.
    destruct Hframe as (_ & _ & _ & -> & _).
    eapply pool_ok_perm; [|exact Hp].
    rewrite (owned_update _ _ _ _ _ Hm Hne Hix).
    unfold owned_by. simpl.
    set (n0 := Z.to_nat (num_blocks inode0)).
    assert (Hsplit : take k bs = take n0 bs ++ drop n0 (take k bs)).
    { rewrite <- (take_drop n0 (take k bs)) at 1. rewrite take_take.
      replace (n0 `min` k)%nat with n0 by lia. reflexivity. }
    rewrite Hsplit at 1. rewrite <- !app_assoc.
    etransitivity; [apply Permutation_app_swap_app|].
    etransitivity; [|apply Permutation_app_swap_app].
    f_equiv. apply Permutation_app_swap_app.
  - refine (table_ok_update fs _ ix inode0 (with_blocks bs inode0) Ht Hframe Hi Hinos _ _).
    + reflexivity.
    + split; simpl; [exact Hlen|exact Hn0].
Qed.

Lemma needed_blocks_for_nonneg size : 0 <= needed_blocks_for size.
Proof. unfold needed_blocks_for, wrap32. apply Z.mod_pos_bound. lia. Qed.

Lemma fs_write_unfold fs filename src size now ix :
  size <> 0 -> lookup_name fs filename = Some ix ->
  needed_blocks_for size <= MAX_BLOCKS ->
  fs_write fs filename src size now =
  let inode := nth ix (inodes fs) zero_inode in
  let needed_blocks := needed_blocks_for size in
  match allocate_blocks src size needed_blocks ix 0 (Z.to_nat needed_blocks)
          (release_blocks inode 0 (Z.to_nat (num_blocks inode)) fs) with
  | (AllocNoSpace _, fs2) => (-1, fs2)
  | (AllocDone, fs2) =>
      (to_int size,
       set_inodes (alter (finish_write size needed_blocks now) ix (inodes fs2)) fs2)
  end.
Proof.
  intros Hsize Hlook Hneeded. unfold fs_write.
  destruct (Z.eqb_spec size 0); [contradiction|]. rewrite Hlook.
  destruct (Z.gtb_spec (needed_blocks_for size) MAX_BLOCKS); [lia|]. reflexivity.
Qed.

Lemma fs_write_inv L fs filename src size now :
  fs_inv L fs -> fs_inv L (snd (fs_write fs filename src size now)).
Proof.
  intros Hinv. unfold fs_write.
  destruct (size =? 0); [exact Hinv|].
  destruct (lookup_name fs filename) as [ix|] eqn:Hlook; [|exact Hinv].
  destruct (Z.gtb_spec (needed_blocks_for size) MAX_BLOCKS) as [|Hle]; [exact Hinv|].
  destruct (lookup_name_Some _ _ _ Hlook) as (m & inode0 & Hm & Hne & Hi & _ & ->).
  pose proof (write_loops L fs ix m inode0 src size (needed_blocks_for size)
                Hinv Hm Hne Hi (conj (needed_blocks_for_nonneg size) Hle)) as H.
  simpl in H.
  destruct (allocate_blocks _ _ _ _ _ _ _) as [[|k] fs2]; simpl.
  - apply (write_done_inv L fs ix m inode0 (free_blocks fs + num_blocks inode0)
             size (needed_blocks_for size) now fs2 (proj2 Hinv) Hm Hne Hi
             (conj (needed_blocks_for_nonneg size) Hle) H).
  - destruct H as (_ & Ha & Hz).
    destruct (write_nospace_inv L fs ix m inode0 k fs2 Hinv Hm Hne Hi Ha Hz)
      as (bs & _ & _ & _ & _ & _ & Hinv').
    apply fs_inv_weaken in Hinv'. exact Hinv'.
Qed.

(** * fs_delete and the invariant *)

Lemma names_ok_kill imap names ix s :
  names_ok imap names -> names_ok (<[ix := 0]> imap) (<[ix := s]> names).
Proof.
  intros [Huniq Hshort]. split.
  - intros i j m1 m2 t Hi Hm1 Hj Hm2 Hni Hnj.
    assert (i <> ix) as Hix.
    { intros ->. apply list_lookup_insert_Some in Hi as [(_ & <- & _)|[? _]]; congruence. }
    assert (j <> ix) as Hjx.
    { intros ->. apply list_lookup_insert_Some in Hj as [(_ & <- & _)|[? _]]; congruence. }
    rewrite list_lookup_insert_ne in Hi by congruence.
    rewrite list_lookup_insert_ne in Hni by congruence.
    rewrite list_lookup_insert_ne in Hj by congruence.
    rewrite list_lookup_insert_ne in Hnj by congruence.
    eapply Huniq; eassumption.
  - intros i m t Hi Hm Hni.
    assert (i <> ix) as Hix.
    { intros ->. apply list_lookup_insert_Some in Hi as [(_ & <- & _)|[? _]]; congruence. }
    rewrite list_lookup_insert_ne in Hi by congruence.
    rewrite list_lookup_insert_ne in Hni by congruence.
    eapply Hshort; eassumption.
Qed.

Lemma zero_inode_ok : inode_ok zero_inode.
Proof. split; [reflexivity|]. simpl. rewrite MAX_BLOCKS_eq. lia. Qed.

Lemma fs_delete_spec L fs filename ix :
  fs_inv L fs -> lookup_name fs filename = Some ix ->
  let inode := nth ix (inodes fs) zero_inode in
  let fs' := snd (fs_delete fs filename) in
  fst (fs_delete fs filename) = 0
  /\ fs_inv L fs'
  /\ free_blocks fs' = free_blocks fs + num_blocks inode
  /\ free_inodes fs' = free_inodes fs + 1
  /\ inode_map fs' = <[ix := 0]> (inode_map fs)
  /\ inodes fs' = <[ix := zero_inode]> (inodes fs)
  /\ forall b, b ∈ owned_by inode -> block_map fs' !! b = Some 0.
Proof.
  intros [Hp Ht] Hlook. unfold fs_delete. rewrite Hlook. simpl.
  destruct (lookup_name_Some _ _ _ Hlook) as (m & inode0 & Hm & Hne & Hi & _ & ->).
  pose proof Ht as (Hti & Hlb & Hli & Hlm & Hok & Hfi & Hnames).
  assert (Hino : inode_ok inode0).
  { rewrite Forall_forall in Hok. apply Hok. eapply list_elem_of_lookup_2. exact Hi. }
  destruct Hino as [Hlen0 Hn0]. rewrite MAX_BLOCKS_eq in Hlen0, Hn0.
  set (rest := L ++ owned (<[ix := 0]> (inode_map fs)) (inodes fs)).
  assert (Hp0 : pool_ok (take (Z.to_nat (num_blocks inode0))
                           (drop 0 (inode_blocks inode0)) ++ rest) fs).
  { eapply pool_ok_perm; [|exact Hp]. unfold owned_blocks, rest. simpl.
    rewrite (owned_split _ _ _ _ _ Hm Hne Hi). apply Permutation_app_swap_app. }
  destruct (release_blocks_pool inode0 (Z.to_nat (num_blocks inode0)) 0 fs rest)
    as (Hp1 & Hc1 & Hzero); [rewrite Hlen0; lia|exact Hp0|].
  destruct (release_blocks_frame inode0 (Z.to_nat (num_blocks inode0)) 0 fs)
    as ((F1 & F2 & F3 & F4 & F5) & Hinos & Hblocks).
  set (fs1 := release_blocks inode0 0 (Z.to_nat (num_blocks inode0)) fs) in *.
  assert (Hcnt : count_free (<[ix := 0]> (inode_map fs)) = count_free (inode_map fs) + 1).
  { rewrite (count_free_insert _ _ _ _ Hm). destruct (Z.eqb_spec m 0); [contradiction|].
    simpl. lia. }
  assert (Hwrap : wrap32 (free_inodes fs + 1) = free_inodes fs + 1).
  { apply wrap32_small. rewrite Hfi.
    pose proof (count_free_range (<[ix := 0]> (inode_map fs))) as Hr.
    pose proof (count_free_range (inode_map fs)) as Hr'.
    rewrite length_insert, Hlm, Hcnt in Hr. unfold MAX_FILES in Hr. lia. }
  rewrite F3, F4, Hinos, Hwrap.
  split; [reflexivity|]. split; [split|].
  - unfold owned_blocks. simpl. rewrite ?F4, ?Hinos, owned_kill_insert. exact Hp1.
  - unfold table_ok. simpl.
    rewrite ?F2, ?F3, ?F4, ?F5, ?Hinos, ?Hwrap, !length_insert, list_fmap_insert.
    repeat split; try assumption.
    + apply Forall_insert; [exact Hok|apply zero_inode_ok].
    + rewrite Hfi, Hcnt. reflexivity.
    + apply names_ok_kill; exact Hnames.
    + apply names_ok_kill; exact Hnames.
  - destruct Hp1 as (_ & _ & -> & _). destruct Hp as (_ & _ & -> & _).
    split; [rewrite Hc1; lia|]. split; [reflexivity|]. split; [reflexivity|].
    split; [reflexivity|]. exact Hzero.
Qed.

Lemma fs_delete_inv L fs filename :
  fs_inv L fs -> fs_inv L (snd (fs_delete fs filename)).
Proof.
  intros Hinv. destruct (lookup_name fs filename) as [ix|] eqn:Hlook.
  - apply (fs_delete_spec L fs filename ix Hinv Hlook).
  - unfold fs_delete. rewrite Hlook. exact Hinv.
Qed.

(** * fs_create_file and the invariant *)

Lemma substring_all s n : (String.length s <= n)%nat -> substring 0 n s = s.
Proof.
  revert n. induction s as [|c s IH]; intros [|n] H; simpl in *; try reflexivity; try lia.
  f_equal. apply IH. lia.
Qed.

Lemma strncpy_short filename :
  strlen filename < MAX_FILENAME -> strncpy filename (MAX_FILENAME - 1) = filename.
Proof.
  unfold strlen, strncpy, MAX_FILENAME. intros H. apply substring_all. lia.
Qed.

Lemma find_free_inode_Some fs j fs' :
  find_free_inode fs = (Some j, fs') ->
  inode_map fs !! j = Some 0
  /\ (j < Z.to_nat (total_inodes fs))%nat
  /\ (forall k, (k < j)%nat -> inode_map fs !! k <> Some 0)
  /\ fs' = set_free_inodes (wrap32 (free_inodes fs - 1))
             (set_inode_map (<[j := 1]> (inode_map fs)) fs).
Proof.
  unfold find_free_inode. intros H.
  destruct (first_free _ _ _) as [i|] eqn:F; [|discriminate].
  injection H as -> <-.
  destruct (first_free_Some _ _ _ _ F) as (Hr & Hj & Hlow).
  repeat split; [exact Hj|lia|]. intros k Hk. apply Hlow. lia.
Qed.

Lemma find_free_inode_None fs fs' :
  find_free_inode fs = (None, fs') ->
  fs' = fs
  /\ forall k, (k < Z.to_nat (total_inodes fs))%nat -> inode_map fs !! k <> Some 0.
Proof.
  unfold find_free_inode. intros H.
  destruct (first_free _ _ _) as [j|] eqn:F; [discriminate|].
  injection H as <-. split; [reflexivity|].
  intros k Hk. apply (first_free_None _ _ _ F). lia.
Qed.

Lemma names_ok_fresh fs j filename :
  table_ok fs -> lookup_name fs filename = None ->
  strlen filename < MAX_FILENAME ->
  names_ok (<[j := 1]> (inode_map fs)) (<[j := filename]> (name <$> inodes fs)).
Proof.
  intros (Hti & _ & _ & Hlm & _ & _ & [Huniq Hshort]) Hlook Hlen.
  assert (Hother : forall i m, i <> j ->
            <[j := 1]> (inode_map fs) !! i = Some m -> m <> 0 ->
            <[j := filename]> (name <$> inodes fs) !! i = Some filename -> False).
  { intros i m Hij Hi Hm Hn.
    rewrite list_lookup_insert_ne in Hi by congruence.
    rewrite list_lookup_insert_ne in Hn by congruence.
    rewrite list_lookup_fmap in Hn.
    destruct (inodes fs !! i) as [inode|] eqn:E; [|discriminate].
    injection Hn as Hn.
    apply (lookup_name_None fs filename i m inode); try assumption.
    rewrite Hlm, Hti. reflexivity. }
  split.
  - intros i k m1 m2 s Hi Hm1 Hk Hm2 Hni Hnk.
    destruct (decide (i = j)) as [->|Hij]; destruct (decide (k = j)) as [->|Hkj];
      [reflexivity| | |].
    + exfalso. apply list_lookup_insert_Some in Hni as [(_ & <- & _)|[? _]]; [|congruence].
      exact (Hother k m2 Hkj Hk Hm2 Hnk).
    + exfalso. apply list_lookup_insert_Some in Hnk as [(_ & <- & _)|[? _]]; [|congruence].
      exact (Hother i m1 Hij Hi Hm1 Hni).
    + rewrite list_lookup_insert_ne in Hi by congruence.
      rewrite list_lookup_insert_ne in Hni by congruence.
      rewrite list_lookup_insert_ne in Hk by congruence.
      rewrite list_lookup_insert_ne in Hnk by congruence.
      eapply Huniq; eassumption.
  - intros i m s Hi Hm Hni.
    destruct (decide (i = j)) as [->|Hij].
    + apply list_lookup_insert_Some in Hni as [(_ & <- & _)|[? _]]; [exact Hlen|congruence].
    + rewrite list_lookup_insert_ne in Hi by congruence.
      rewrite list_lookup_insert_ne in Hni by congruence.
      eapply Hshort; eassumption.
Qed.

(** A successful [fs_create_file] takes the lowest free slot [j] and only
    changes that slot. *)
Lemma fs_create_file_ok L fs filename now j :
  fs_inv L fs ->
  strlen filename < MAX_FILENAME ->
  lookup_name fs filename = None ->
  first_free (inode_map fs) 0 (Z.to_nat (total_inodes fs)) = Some j ->
  exists inode,
    inodes fs !! j = Some inode
    /\ fs_create_file fs filename now
       = (Z.of_nat j,
          set_inodes (<[j := init_inode filename now inode]> (inodes fs))
            (set_free_inodes (free_inodes fs - 1)
               (set_inode_map (<[j := 1]> (inode_map fs)) fs)))
    /\ fs_inv L (snd (fs_create_file fs filename now)).
Proof.
  intros [Hp Ht] Hlen Hlook F.
  pose proof Ht as (Hti & Hlb & Hli & Hlm & Hok & Hfi & Hnames).
  destruct (first_free_Some _ _ _ _ F) as (Hr & Hj & Hlow).
  assert (Hjlt : (j < 256)%nat) by (rewrite Hti in Hr; unfold MAX_FILES in Hr; lia).
  destruct (lookup_lt_is_Some_2 (inodes fs) j) as [inode Hi];
    [rewrite Hli; unfold MAX_FILES; lia|].
  assert (Hcnt : count_free (<[j := 1]> (inode_map fs)) = count_free (inode_map fs) - 1).
  { rewrite (count_free_insert _ _ _ _ Hj). simpl. lia. }
  assert (Hwrap : wrap32 (free_inodes fs - 1) = free_inodes fs - 1).
  { apply wrap32_small. rewrite Hfi.
    pose proof (count_free_range (<[j := 1]> (inode_map fs))) as Hr1.
    pose proof (count_free_range (inode_map fs)) as Hr2.
    rewrite Hlm in Hr2. unfold MAX_FILES in Hr2. lia. }
  assert (Heq : fs_create_file fs filename now
       = (Z.of_nat j,
          set_inodes (<[j := init_inode filename now inode]> (inodes fs))
            (set_free_inodes (free_inodes fs - 1)
               (set_inode_map (<[j := 1]> (inode_map fs)) fs)))).
  { unfold fs_create_file, find_free_inode.
    destruct (Z.leb_spec MAX_FILENAME (strlen filename)); [lia|].
    rewrite Hlook, F, Hwrap. simpl.
    rewrite (alter_lookup_insert _ _ _ _ Hi), to_int_small by lia. reflexivity. }
  exists inode. split; [exact Hi|]. split; [exact Heq|].
  rewrite Heq. simpl. split.
  - unfold owned_blocks. simpl.
    destruct Hp as (H1 & H2 & H3 & H4 & H5).
    assert (Hown : owned (<[j := 1]> (inode_map fs))
                     (<[j := init_inode filename now inode]> (inodes fs))
                   ≡ₚ owned (inode_map fs) (inodes fs)).
    { rewrite (owned_update _ _ j 1 _); [|apply list_lookup_insert_eq; rewrite Hlm;
        unfold MAX_FILES; lia|lia|rewrite Hli; unfold MAX_FILES; lia].
      rewrite list_insert_insert_eq, (list_insert_id _ _ _ Hj). reflexivity. }
    repeat split; simpl; try assumption.
    + rewrite Hown. exact H4.
    + intros b Hb. rewrite Hown in Hb. apply (H5 b Hb).
  - unfold table_ok. simpl. rewrite !length_insert, list_fmap_insert. simpl.
    rewrite (strncpy_short _ Hlen).
    repeat split; try assumption.
    + apply Forall_insert; [exact Hok|].
      rewrite Forall_forall in Hok. destruct (Hok inode) as [Hl Hn];
        [eapply list_elem_of_lookup_2; exact Hi|].
      split; simpl; [exact Hl|rewrite MAX_BLOCKS_eq; lia].
    + rewrite Hfi, Hcnt. reflexivity.
    + apply names_ok_fresh; assumption.
    + apply names_ok_fresh; assumption.
Qed.

Lemma fs_create_file_fail fs filename now :
  MAX_FILENAME <= strlen filename
  \/ is_Some (lookup_name fs filename)
  \/ first_free (inode_map fs) 0 (Z.to_nat (total_inodes fs)) = None ->
  fs_create_file fs filename now = (-1, fs).
Proof.
  unfold fs_create_file, find_free_inode.
  destruct (Z.leb_spec MAX_FILENAME (strlen filename)) as [|Hlt]; [reflexivity|].
  intros [H|[[ix H]|H]]; [lia| |].
  - rewrite H. reflexivity.
  - destruct (lookup_name fs filename); [reflexivity|]. rewrite H. reflexivity.
Qed.

Lemma fs_create_file_inv L fs filename now :
  fs_inv L fs -> fs_inv L (snd (fs_create_file fs filename now)).
Proof.
  intros Hinv.
  destruct (Z.leb_spec MAX_FILENAME (strlen filename)) as [Hge|Hlt].
  { rewrite fs_create_file_fail by auto. exact Hinv. }
  destruct (lookup_name fs filename) as [ix|] eqn:Hlook.
  { rewrite fs_create_file_fail; [exact Hinv|]. right. left. rewrite Hlook. eauto. }
  destruct (first_free (inode_map fs) 0 (Z.to_nat (total_inodes fs))) as [j|] eqn:F.
  - destruct (fs_create_file_ok L fs filename now j Hinv Hlt Hlook F) as (_ & _ & _ & H).
    exact H.
  - rewrite fs_create_file_fail by auto. exact Hinv.
Qed.

(** * The invariant holds in every reachable state *)

Lemma fs_inv_init : fs_inv [] fs_create.
Proof.
  assert (Hdead : forall i m, inode_map fs_create !! i = Some m -> m = 0).
  { intros i m Hi.
    change (inode_map fs_create) with (replicate (Z.to_nat MAX_FILES) 0) in Hi.
    apply lookup_replicate in Hi as [-> _]. reflexivity. }
  split.
  - unfold pool_ok. split; [reflexivity|]. split; [reflexivity|]. split; [reflexivity|].
    assert (Hown : owned_blocks fs_create = []) by (vm_compute; reflexivity).
    rewrite Hown. split; [apply NoDup_nil; constructor|].
    intros b Hb. inversion Hb.
  - unfold table_ok. split; [reflexivity|]. split; [reflexivity|].
    split; [reflexivity|]. split; [reflexivity|]. split; [|split; [reflexivity|split]].
    + change (inodes fs_create) with (replicate (Z.to_nat MAX_FILES) zero_inode).
      apply Forall_replicate. apply zero_inode_ok.
    + intros i j m1 m2 s Hi Hm1. apply Hdead in Hi. contradiction.
    + intros i m s Hi Hm. apply Hdead in Hi. contradiction.
Qed.

Lemma fs_inv_step L fs o : fs_inv L fs -> fs_inv L (step fs o).
Proof.
  intros Hinv. destruct o as [filename now|filename src size now|filename buffer n|filename];
    simpl.
  - apply fs_create_file_inv. exact Hinv.
  - apply fs_write_inv. exact Hinv.
  - exact Hinv.
  - apply fs_delete_inv. exact Hinv.
Qed.

Lemma fs_inv_run L ops fs : fs_inv L fs -> fs_inv L (run ops fs).
Proof.
  revert fs. induction ops as [|o ops IH]; intros fs Hinv; simpl; [exact Hinv|].
  apply IH. apply fs_inv_step. exact Hinv.
Qed.

Lemma reachable_inv fs : reachable fs -> fs_inv [] fs.
Proof.
  induction 1 as [|fs o _ IH]; [apply fs_inv_init|apply fs_inv_step; exact IH].
Qed.

Lemma reachable_run ops fs : reachable fs -> reachable (run ops fs).
Proof.
  revert fs. induction ops as [|o ops IH]; intros fs H; simpl; [exact H|].
  apply IH. apply reachable_step. exact H.
Qed.

(** * Properties of the reachable states *)

(** C4: in every state reached from a fresh file system by any sequence of
    create / write / read / delete calls (failed calls included),
    [free_blocks] is the number of [block_map] entries equal to 0 and
    [free_inodes] is the number of [inode_map] entries equal to 0. *)
Theorem free_counters_match_maps (ops : list op) :
  let fs := run ops fs_create in
  free_blocks fs = count_free (block_map fs)
  /\ free_inodes fs = count_free (inode_map fs).
Proof.
  destruct (fs_inv_run [] ops fs_create fs_inv_init) as [Hp Ht]. simpl.
  split; [apply Hp|apply Ht].
Qed.

(** C5: in every reachable state, also one left by a write that ran out of
    space part way, each of the first [num_blocks] entries of a live inode's
    block array is an index marked allocated in the block map. *)
Theorem live_inode_blocks_allocated (ops : list op) (i : nat) (inode : inode_t)
    (j b : nat) :
  let fs := run ops fs_create in
  live fs i inode ->
  Z.of_nat j < num_blocks inode ->
  inode_blocks inode !! j = Some b ->
  block_used fs b.
Proof.
  intros fs [(m & Hm & Hne) Hi] Hj Hb.
  destruct (fs_inv_run [] ops fs_create fs_inv_init) as [Hp _].
  destruct Hp as (_ & _ & _ & _ & Hused). apply Hused. simpl.
  apply elem_of_owned. exists i, m, inode. repeat split; try assumption.
  unfold owned_by. apply elem_of_take. exists j. split; [exact Hb|lia].
Qed.

Lemma live_inode_blocks_allocated_witness :
  block_used (run (ops_two_files ++ [Write "a" (bytes 256 x43) 256 5]) fs_create) 1.
Proof.
  apply (live_inode_blocks_allocated
           (ops_two_files ++ [Write "a" (bytes 256 x43) 256 5]) 0
           (nth 0 (inodes fs_after_nospace) zero_inode) 1 1).
  - split; [exists 1; split; [vm_compute; reflexivity|lia]|vm_compute; reflexivity].
  - vm_compute. reflexivity.
  - vm_compute. reflexivity.
Defined.

(** * The allocators *)

(** C8: block and inode allocation are first fit, lowest index first.  Given
    maps with [total_blocks] and [total_inodes] entries, each allocator
    returns the lowest index whose entry is 0, after setting the entry to 1
    and decrementing the free counter, and changes nothing else; it returns
    nothing, leaving the state as it was, exactly when no entry is 0; the
    index returned depends on the map alone. *)
Theorem allocators_first_fit (fs : filesystem_t) :
  length (block_map fs) = Z.to_nat (total_blocks fs) ->
  length (inode_map fs) = Z.to_nat (total_inodes fs) ->
  (match find_free_block fs with
   | (Some i, fs') =>
       block_map fs !! i = Some 0
       /\ (forall j, (j < i)%nat -> block_map fs !! j <> Some 0)
       /\ block_map fs' = <[i := 1]> (block_map fs)
       /\ block_map fs' !! i = Some 1
       /\ free_blocks fs' = wrap32 (free_blocks fs - 1)
       /\ fs' = set_free_blocks (free_blocks fs')
                  (set_block_map (block_map fs') fs)
   | (None, fs') => fs' = fs /\ forall j, block_map fs !! j <> Some 0
   end)
  /\ (match find_free_inode fs with
      | (Some i, fs') =>
          inode_map fs !! i = Some 0
          /\ (forall j, (j < i)%nat -> inode_map fs !! j <> Some 0)
          /\ inode_map fs' = <[i := 1]> (inode_map fs)
          /\ inode_map fs' !! i = Some 1
          /\ free_inodes fs' = wrap32 (free_inodes fs - 1)
          /\ fs' = set_free_inodes (free_inodes fs')
                     (set_inode_map (inode_map fs') fs)
      | (None, fs') => fs' = fs /\ forall j, inode_map fs !! j <> Some 0
      end)
  /\ (forall fs2,
        block_map fs2 = block_map fs -> total_blocks fs2 = total_blocks fs ->
        fst (find_free_block fs2) = fst (find_free_block fs))
  /\ (forall fs2,
        inode_map fs2 = inode_map fs -> total_inodes fs2 = total_inodes fs ->
        fst (find_free_inode fs2) = fst (find_free_inode fs)).
Proof.
  intros Hlb Hli. split; [|split; [|split]].
  - destruct (find_free_block fs) as [[i|] fs'] eqn:F.
    + destruct (find_free_block_Some _ _ _ F) as (Hi & _ & Hlow & ->). simpl.
      repeat split; try assumption.
      apply list_lookup_insert_eq. apply lookup_lt_Some in Hi. exact Hi.
    + destruct (find_free_block_None _ _ F) as (-> & Hfull). split; [reflexivity|].
      intros j E. apply (Hfull j); [|exact E]. apply lookup_lt_Some in E. lia.
  - destruct (find_free_inode fs) as [[i|] fs'] eqn:F.
    + destruct (find_free_inode_Some _ _ _ F) as (Hi & _ & Hlow & ->). simpl.
      repeat split; try assumption.
      apply list_lookup_insert_eq. apply lookup_lt_Some in Hi. exact Hi.
    + destruct (find_free_inode_None _ _ F) as (-> & Hfull). split; [reflexivity|].
      intros j E. apply (Hfull j); [|exact E]. apply lookup_lt_Some in E. lia.
  - intros fs2 Hm Ht. unfold find_free_block. rewrite Hm, Ht.
    destruct (first_free _ _ _); reflexivity.
  - intros fs2 Hm Ht. unfold find_free_inode. rewrite Hm, Ht.
    destruct (first_free _ _ _); reflexivity.
Qed.

Lemma allocators_first_fit_witness :
  fst (find_free_block fs_two_files) = Some 15%nat
  /\ forall j, (j < 15)%nat -> block_map fs_two_files !! j <> Some 0.
Proof.
  destruct (allocators_first_fit fs_two_files) as (Hb & _);
    [vm_compute; reflexivity|vm_compute; reflexivity|].
  destruct (find_free_block fs_two_files) as [[i|] fs'] eqn:E;
    vm_compute in E; [|discriminate].
  injection E as <- <-. split; [reflexivity|]. apply Hb.
Defined.

(** C10: [fs_create] sets [total_blocks] to [MAX_FILE_SIZE / BLOCK_SIZE],
    which is [MAX_BLOCKS] = 16, so the pool has as many blocks as one file
    may hold.  In every reachable state the pool still has 16 blocks and the
    [num_blocks] of the live inodes sum to at most 16, whatever the number
    of inode slots; and a write of [MAX_FILE_SIZE] bytes that succeeds
    leaves no block free. *)
Theorem pool_holds_one_full_file :
  total_blocks fs_create = MAX_FILE_SIZE / BLOCK_SIZE
  /\ MAX_FILE_SIZE / BLOCK_SIZE = MAX_BLOCKS
  /\ MAX_BLOCKS = 16
  /\ length (blocks fs_create) = 16%nat
  /\ length (inodes fs_create) = 256%nat
  /\ (forall fs, reachable fs ->
        total_blocks fs = 16
        /\ length (blocks fs) = 16%nat
        /\ length (block_map fs) = 16%nat
        /\ live_num_blocks (inode_map fs) (inodes fs) <= 16)
  /\ (forall fs filename src now,
        reachable fs ->
        fst (fs_write fs filename src MAX_FILE_SIZE now) = MAX_FILE_SIZE ->
        let fs' := snd (fs_write fs filename src MAX_FILE_SIZE now) in
        free_blocks fs' = 0
        /\ count_free (block_map fs') = 0
        /\ exists ix inode,
             lookup_name fs filename = Some ix
             /\ inodes fs' !! ix = Some inode
             /\ num_blocks inode = 16).
Proof.
  split; [reflexivity|]. split; [reflexivity|]. split; [reflexivity|].
  split; [reflexivity|]. split; [reflexivity|]. split.
  - intros fs Hr. destruct (reachable_inv _ Hr) as [Hp Ht].
    pose proof (pool_ok_bound _ _ Hp) as Hb.
    pose proof (pool_ok_count _ _ Hp) as Hc.
    destruct Hp as (Htb & Hlm & _). destruct Ht as (_ & Hlb & _ & _ & Hok & _).
    rewrite (live_num_blocks_length _ _ Hok).
    rewrite app_nil_l in Hb. unfold owned_blocks in Hb.
    rewrite MAX_BLOCKS_eq in *. repeat split; try assumption. lia.
  - intros fs filename src now Hr Hret fs'. subst fs'.
    pose proof (reachable_inv _ Hr) as Hinv.
    assert (Hneeded : needed_blocks_for MAX_FILE_SIZE = 16) by reflexivity.
    unfold fs_write in *.
    change (MAX_FILE_SIZE =? 0) with false in *. cbv iota in *.
    destruct (lookup_name fs filename) as [ix|] eqn:Hlook; [|discriminate].
    rewrite Hneeded in *. change (16 >? MAX_BLOCKS) with false in *. cbv iota in *.
    destruct (lookup_name_Some _ _ _ Hlook) as (m & inode0 & Hm & Hne & Hi & _ & Hnth).
    rewrite Hnth in *.
    pose proof (write_loops [] fs ix m inode0 src MAX_FILE_SIZE 16
                  Hinv Hm Hne Hi ltac:(rewrite MAX_BLOCKS_eq; lia)) as H.
    cbv zeta in H.
    destruct (allocate_blocks _ _ _ _ _ _ _) as [[|k] fs2]; [|discriminate].
    destruct (write_done_inv [] fs ix m inode0 _ MAX_FILE_SIZE 16 now fs2
                (proj2 Hinv) Hm Hne Hi ltac:(rewrite MAX_BLOCKS_eq; lia) H)
      as (Hinv' & Hfree & Hle & bs & Hinos).
    pose proof (pool_ok_count _ _ (proj1 Hinv')) as Hc.
    cbn [fst snd].
    assert (Hz : free_blocks
                   (set_inodes (alter (finish_write MAX_FILE_SIZE 16 now) ix (inodes fs2))
                      fs2) = 0) by (rewrite MAX_BLOCKS_eq in *; lia).
    split; [exact Hz|]. split.
    + destruct Hinv' as [(_ & _ & Hf & _) _]. rewrite <- Hf. exact Hz.
    + exists ix, (finish_write MAX_FILE_SIZE 16 now (with_blocks bs inode0)).
      split; [reflexivity|]. split; [|reflexivity].
      rewrite Hinos. apply list_lookup_insert_eq.
      apply lookup_lt_Some in Hi. exact Hi.
Qed.

Lemma pool_holds_one_full_file_witness :
  free_blocks (snd (fs_write (run [Create "a" 1] fs_create) "a"
                      (bytes 1024 x41) MAX_FILE_SIZE 2)) = 0
  /\ live_num_blocks (inode_map (run ops_two_files fs_create))
                     (inodes (run ops_two_files fs_create)) <= 16.
Proof.
  destruct pool_holds_one_full_file as (_ & _ & _ & _ & _ & Hsum & Hfull).
  split.
  - apply (Hfull (run [Create "a" 1] fs_create) "a" (bytes 1024 x41) 2).
    + apply (reachable_run [Create "a" 1] fs_create reachable_init).
    + vm_compute. reflexivity.
  - apply (Hsum (run ops_two_files fs_create)).
    apply (reachable_run ops_two_files fs_create reachable_init).
Defined.

(** * fs_create_file: which names are refused *)

Lemma lookup_from_None_intro fs filename n i :
  (forall k, (i <= k < i + n)%nat -> live_named fs filename k = false) ->
  lookup_from fs filename i n = None.
Proof.
  revert i. induction n as [|n IH]; intros i H; simpl; [reflexivity|].
  rewrite (H i) by lia. apply IH. intros k Hk. apply H. lia.
Qed.

Lemma lookup_from_Some_intro fs filename n i j :
  (i <= j < i + n)%nat ->
  live_named fs filename j = true ->
  (forall k, (i <= k < j)%nat -> live_named fs filename k = false) ->
  lookup_from fs filename i n = Some j.
Proof.
  revert i. induction n as [|n IH]; intros i Hr Hj Hlow; simpl; [lia|].
  destruct (decide (i = j)) as [->|Hne].
  - rewrite Hj. reflexivity.
  - rewrite (Hlow i) by lia. apply IH; [lia|exact Hj|]. intros k Hk. apply Hlow. lia.
Qed.

Lemma lookup_name_fresh filename : lookup_name fs_create filename = None.
Proof.
  apply lookup_from_None_intro. intros k _. unfold live_named.
  destruct (inode_map fs_create !! k) as [m|] eqn:E; [|reflexivity].
  change (inode_map fs_create) with (replicate (Z.to_nat MAX_FILES) 0) in E.
  apply lookup_replicate in E as [-> _].
  destruct (inodes fs_create !! k); reflexivity.
Qed.

(** C3, as the code has it: [fs_create_file] refuses a name whatever the
    state (returning -1 and leaving the state as it was) exactly when the
    name has [MAX_FILENAME] characters or more.  The empty name is not
    refused. *)
Theorem fs_create_file_refuses_long_names (filename : string) :
  (forall fs now, fs_create_file fs filename now = (-1, fs))
  <-> MAX_FILENAME <= strlen filename.
Proof.
  split.
  - intros H. destruct (Z.leb_spec MAX_FILENAME (strlen filename)) as [|Hlt]; [assumption|].
    exfalso.
    destruct (fs_create_file_ok [] fs_create filename 0 0 fs_inv_init Hlt
                (lookup_name_fresh filename) ltac:(reflexivity)) as (inode & _ & Heq & _).
    rewrite (H fs_create 0) in Heq. discriminate.
  - intros H fs now. apply fs_create_file_fail. left. exact H.
Qed.

(** C3 as stated fails: on a fresh file system the empty name is accepted
    and gets inode 0. *)
Lemma fs_create_file_accepts_empty_name :
  strlen "" = 0
  /\ fst (fs_create_file fs_create "" 0) = 0
  /\ fst (fs_create_file fs_create "" 0) <> -1
  /\ lookup_name (snd (fs_create_file fs_create "" 0)) "" = Some 0%nat.
Proof. vm_compute. repeat split; congruence. Qed.

(** * Reading back what was written *)

(** C1 at a block multiple: a 64 byte write to a fresh file reports 64 bytes
    written, yet copies nothing into the block (the last block gets
    [size % BLOCK_SIZE] = 0 bytes), and the read of 64 bytes reports 64 and
    leaves the caller's buffer as it was. *)
Lemma write_read_one_full_block :
  let fs := run [Create "a" 1] fs_create in
  let src := bytes 64 x41 in
  fst (fs_write fs "a" src 64 2) = 64
  /\ blocks (snd (fs_write fs "a" src 64 2)) !! 0%nat = Some zero_block
  /\ fs_read (snd (fs_write fs "a" src 64 2)) "a" (bytes 64 x00) 64
     = (64, bytes 64 x00)
  /\ snd (fs_read (snd (fs_write fs "a" src 64 2)) "a" (bytes 64 x00) 64) <> src.
Proof. vm_compute. repeat split; congruence. Qed.

(** The same with two blocks: the first 64 bytes come back, the last 64 do
    not. *)
Lemma write_read_two_full_blocks :
  let fs := run [Create "a" 1] fs_create in
  let src := bytes 128 x41 in
  fst (fs_write fs "a" src 128 2) = 128
  /\ fs_read (snd (fs_write fs "a" src 128 2)) "a" (bytes 128 x00) 128
     = (128, bytes 64 x41 ++ bytes 64 x00).
Proof. vm_compute. split; reflexivity. Qed.

(** C2 on a file of 65 bytes read with [max_size] 1: the call returns 1 but
    has copied the whole first block and the byte of the second one, so the
    positions 1 to 64 of the caller's memory are overwritten. *)
Lemma fs_read_writes_past_to_read :
  let fs := run [Create "a" 1; Write "a" (bytes 65 x41) 65 2] fs_create in
  fs_read fs "a" (bytes 70 x00) 1 = (1, bytes 65 x41 ++ bytes 5 x00)
  /\ snd (fs_read fs "a" (bytes 70 x00) 1) !! 1%nat = Some x41
  /\ snd (fs_read fs "a" (bytes 70 x00) 1) !! 64%nat = Some x41.
Proof. vm_compute. repeat split; reflexivity. Qed.

(** * fs_delete *)

Lemma live_named_frame fs fs' filename k :
  inode_map fs' !! k = inode_map fs !! k ->
  inodes fs' !! k = inodes fs !! k ->
  live_named fs' filename k = live_named fs filename k.
Proof. unfold live_named. intros -> ->. reflexivity. Qed.

(** C7: deleting a live file in a reachable state returns 0, raises
    [free_blocks] by the file's [num_blocks] (its blocks are marked free),
    frees the inode slot and zeroes its record; the name is then unknown, and
    creating it again succeeds at once and makes it known again. *)
Theorem fs_delete_frees_blocks_and_name (fs : filesystem_t) (filename : string)
    (ix : nat) :
  reachable fs ->
  lookup_name fs filename = Some ix ->
  let inode := nth ix (inodes fs) zero_inode in
  let fs' := snd (fs_delete fs filename) in
  fst (fs_delete fs filename) = 0
  /\ free_blocks fs' = free_blocks fs + num_blocks inode
  /\ (forall b, b ∈ owned_by inode -> block_map fs' !! b = Some 0)
  /\ inode_map fs' !! ix = Some 0
  /\ free_inodes fs' = free_inodes fs + 1
  /\ inodes fs' !! ix = Some zero_inode
  /\ lookup_name fs' filename = None
  /\ forall now, exists j,
       fst (fs_create_file fs' filename now) = Z.of_nat j
       /\ lookup_name (snd (fs_create_file fs' filename now)) filename = Some j.
Proof.
  intros Hr Hlook inode fs'.
  pose proof (reachable_inv _ Hr) as Hinv.
  destruct (fs_delete_spec [] fs filename ix Hinv Hlook)
    as (Hret & Hinv' & Hfb & Hfi & Hmap & Hinos & Hzero).
  fold inode in Hfb, Hzero. fold fs' in Hinv', Hfb, Hfi, Hmap, Hinos, Hzero.
  destruct (lookup_name_Some _ _ _ Hlook) as (m & inode0 & Hm & Hne & Hi & Hname & _).
  pose proof Hinv as [_ (Hti & _ & Hli & Hlm & _ & _ & [Huniq Hshort])].
  pose proof Hinv' as [_ (Hti' & _ & Hli' & Hlm' & _)].
  assert (Hixm : (ix < length (inode_map fs))%nat) by (apply lookup_lt_Some in Hm; exact Hm).
  assert (Hixi : (ix < length (inodes fs))%nat) by (apply lookup_lt_Some in Hi; exact Hi).
  assert (Hdead : inode_map fs' !! ix = Some 0).
  { rewrite Hmap. apply list_lookup_insert_eq. exact Hixm. }
  assert (Hgone : forall k, live_named fs' filename k = false).
  { intros k. destruct (live_named fs' filename k) eqn:E; [|reflexivity]. exfalso.
    apply live_named_true in E as (m' & inode' & Hm' & Hne' & Hi' & Hname').
    assert (k <> ix) as Hk by (intros ->; congruence).
    rewrite Hmap, list_lookup_insert_ne in Hm' by congruence.
    rewrite Hinos, list_lookup_insert_ne in Hi' by congruence.
    apply Hk. apply (Huniq k ix m' m filename); try assumption.
    - rewrite list_lookup_fmap, Hi'. simpl. congruence.
    - rewrite list_lookup_fmap, Hi. simpl. congruence. }
  assert (Hnone : lookup_name fs' filename = None).
  { apply lookup_from_None_intro. intros k _. apply Hgone. }
  assert (Hlen : strlen filename < MAX_FILENAME).
  { apply (Hshort ix m filename Hm Hne). rewrite list_lookup_fmap, Hi. simpl. congruence. }
  repeat split; try assumption.
  - rewrite Hinos. apply list_lookup_insert_eq. exact Hixi.
  - intros now.
    destruct (first_free_is_Some (inode_map fs') 0 (Z.to_nat (total_inodes fs')) ix)
      as [j F]; [rewrite Hti'; unfold MAX_FILES; rewrite Hlm in Hixm;
                 unfold MAX_FILES in Hixm; lia|exact Hdead|].
    destruct (fs_create_file_ok [] fs' filename now j Hinv' Hlen Hnone F)
      as (inode1 & Hi1 & Heq & _).
    destruct (first_free_Some _ _ _ _ F) as (Hjr & Hj & _).
    exists j. rewrite Heq. cbn [fst snd]. split; [reflexivity|].
    apply lookup_from_Some_intro.
    + cbn. lia.
    + apply live_named_true. exists 1, (init_inode filename now inode1). cbn.
      split; [apply list_lookup_insert_eq; apply lookup_lt_Some in Hj; exact Hj|].
      split; [lia|].
      split; [apply list_lookup_insert_eq; apply lookup_lt_Some in Hi1; exact Hi1|].
      apply strncpy_short. exact Hlen.
    + intros k Hk. rewrite <- (Hgone k). apply live_named_frame; cbn;
        apply list_lookup_insert_ne; lia.
Qed.

Lemma fs_delete_frees_blocks_and_name_witness :
  free_blocks (snd (fs_delete (run ops_two_files fs_create) "b"))
  = free_blocks (run ops_two_files fs_create) + 13
  /\ exists j,
       fst (fs_create_file (snd (fs_delete (run ops_two_files fs_create) "b")) "b" 9)
       = Z.of_nat j.
Proof.
  destruct (fs_delete_frees_blocks_and_name (run ops_two_files fs_create) "b" 1
              (reachable_run ops_two_files fs_create reachable_init)
              ltac:(vm_compute; reflexivity))
    as (_ & Hfb & _ & _ & _ & _ & _ & Hcreate).
  split.
  - rewrite Hfb. f_equal.
  - destruct (Hcreate 9) as (j & Hj & _). exists j. exact Hj.
Defined.

(** * fs_write when the pool runs out *)

Lemma count_free_zero_used (map : list Z) (b : nat) (v : Z) :
  count_free map = 0 -> map !! b = Some v -> v <> 0.
Proof.
  revert b. induction map as [|x map IH]; intros [|b] Hc Hb; simpl in *; try discriminate.
  - injection Hb as ->. pose proof (count_free_range map).
    destruct (Z.eqb_spec v 0); [lia|assumption].
  - pose proof (count_free_range map). apply (IH b); [|exact Hb].
    destruct (x =? 0); lia.
Qed.

(** What a call of [fs_write] that runs out of blocks leaves behind. *)
Lemma fs_write_nospace_state L fs filename src len now ix k fs2 :
  fs_inv L fs ->
  lookup_name fs filename = Some ix ->
  len <> 0 ->
  needed_blocks_for len <= MAX_BLOCKS ->
  let inode := nth ix (inodes fs) zero_inode in
  allocate_blocks src len (needed_blocks_for len) ix 0
    (Z.to_nat (needed_blocks_for len))
    (release_blocks inode 0 (Z.to_nat (num_blocks inode)) fs)
  = (AllocNoSpace k, fs2) ->
  fs_write fs filename src len now = (-1, fs2)
  /\ (k < Z.to_nat (needed_blocks_for len))%nat
  /\ exists bs,
       length bs = Z.to_nat MAX_BLOCKS
       /\ inodes fs2 = <[ix := with_blocks bs inode]> (inodes fs)
       /\ same_frame fs fs2
       /\ Z.of_nat k = free_blocks fs + num_blocks inode
       /\ free_blocks fs2 = 0
       /\ fs_inv (L ++ drop (Z.to_nat (num_blocks inode)) (take k bs)) fs2.
Proof.
  intros Hinv Hlook Hlen Hle inode Halloc.
  destruct (lookup_name_Some _ _ _ Hlook) as (m & inode0 & Hm & Hne & Hi & _ & Hnth).
  subst inode. rewrite Hnth in *.
  pose proof (write_loops L fs ix m inode0 src len (needed_blocks_for len)
                Hinv Hm Hne Hi (conj (needed_blocks_for_nonneg len) Hle)) as H.
  cbv zeta in H. rewrite Halloc in H. destruct H as (Hk & Ha & Hz).
  split; [|split; [exact Hk|]].
  - rewrite (fs_write_unfold fs filename src len now ix Hlen Hlook Hle).
    cbv zeta. rewrite Hnth, Halloc. reflexivity.
  - apply (write_nospace_inv L fs ix m inode0 k fs2 Hinv Hm Hne Hi Ha Hz).
Qed.

(** C6, amended: on a live file in a reachable state, [fs_write] first
    returns every block of the inode to the pool (in the state [fs1] in
    which the first allocation is made, the old blocks are marked free and
    [free_blocks] has grown by [num_blocks]) and only then allocates: the
    result of the call is that of the allocation loop run from [fs1].  When
    the allocator comes back empty at loop index [k], the call returns -1
    together with the state reached so far, nothing rolled back: [k] is the
    number of blocks that were free before the call plus the inode's old
    [num_blocks], so the failing call has itself taken every free block
    again, the old ones included.  In the state it returns no block is free
    and the file's old blocks are marked used, not freed; the inode keeps
    its old [size] and [num_blocks].  That state differs from the one before
    the call whenever that one had a free block. *)
Theorem fs_write_frees_before_allocating (fs : filesystem_t) (filename : string)
    (src : list byte) (len now : Z) (ix : nat) :
  reachable fs ->
  lookup_name fs filename = Some ix ->
  len <> 0 ->
  needed_blocks_for len <= MAX_BLOCKS ->
  let inode := nth ix (inodes fs) zero_inode in
  let fs1 := release_blocks inode 0 (Z.to_nat (num_blocks inode)) fs in
  (forall b, b ∈ owned_by inode -> block_map fs1 !! b = Some 0)
  /\ free_blocks fs1 = free_blocks fs + num_blocks inode
  /\ fs_write fs filename src len now
     = match allocate_blocks src len (needed_blocks_for len) ix 0
               (Z.to_nat (needed_blocks_for len)) fs1 with
       | (AllocNoSpace _, fs2) => (-1, fs2)
       | (AllocDone, fs2) =>
           (to_int len,
            set_inodes
              (alter (finish_write len (needed_blocks_for len) now) ix (inodes fs2))
              fs2)
       end
  /\ forall k fs2,
       allocate_blocks src len (needed_blocks_for len) ix 0
         (Z.to_nat (needed_blocks_for len)) fs1 = (AllocNoSpace k, fs2) ->
       let inode' := nth ix (inodes fs2) zero_inode in
       fs_write fs filename src len now = (-1, fs2)
       /\ Z.of_nat k = free_blocks fs + num_blocks inode
       /\ free_blocks fs2 = 0
       /\ (forall b, (b < Z.to_nat MAX_BLOCKS)%nat -> block_used fs2 b)
       /\ (forall b, b ∈ owned_by inode -> block_used fs2 b)
       /\ size inode' = size inode
       /\ num_blocks inode' = num_blocks inode
       /\ (0 < free_blocks fs -> fs2 <> fs).
Proof.
  intros Hr Hlook Hlen Hle inode fs1.
  pose proof (reachable_inv _ Hr) as Hinv.
  destruct (lookup_name_Some _ _ _ Hlook) as (m & inode0 & Hm & Hne & Hi & _ & Hnth).
  assert (Hrel : (forall b, b ∈ owned_by inode -> block_map fs1 !! b = Some 0)
                 /\ free_blocks fs1 = free_blocks fs + num_blocks inode).
  { subst fs1 inode. rewrite Hnth.
    pose proof Hinv as [Hp (_ & _ & _ & _ & Hok & _)].
    assert (Hino : inode_ok inode0).
    { rewrite Forall_forall in Hok. apply Hok. eapply list_elem_of_lookup_2. exact Hi. }
    destruct Hino as [Hlen0 Hn0]. rewrite MAX_BLOCKS_eq in Hlen0, Hn0.
    destruct (release_blocks_pool inode0 (Z.to_nat (num_blocks inode0)) 0 fs
                (owned (<[ix := 0]> (inode_map fs)) (inodes fs)))
      as (Hp1 & Hc1 & Hzero).
    - rewrite Hlen0. lia.
    - eapply pool_ok_perm; [|exact Hp]. unfold owned_blocks. simpl.
      apply (owned_split _ _ _ _ _ Hm Hne Hi).
    - split; [exact Hzero|].
      destruct Hp1 as (_ & _ & -> & _). destruct Hp as (_ & _ & -> & _).
      rewrite Hc1. lia. }
  destruct Hrel as [Hzero Hfree]. split; [exact Hzero|]. split; [exact Hfree|].
  split; [exact (fs_write_unfold fs filename src len now ix Hlen Hlook Hle)|].
  intros k fs2 Halloc inode'.
  destruct (fs_write_nospace_state [] fs filename src len now ix k fs2
              Hinv Hlook Hlen Hle Halloc)
    as (Hret & _ & bs & Hlenbs & Hinos & Hframe & Hk & Hz & Hinv2).
  fold inode in Hinos, Hk.
  assert (Hino' : inode' = with_blocks bs inode).
  { subst inode'. apply nth_lookup_Some. rewrite Hinos.
    apply list_lookup_insert_eq. apply lookup_lt_Some in Hi. exact Hi. }
  assert (Hall : forall b, (b < Z.to_nat MAX_BLOCKS)%nat -> block_used fs2 b).
  { intros b Hb. destruct Hinv2 as [(_ & Hl & Hf & _) _].
    destruct (lookup_lt_is_Some_2 (block_map fs2) b) as [v Hv]; [rewrite Hl; exact Hb|].
    exists v. split; [exact Hv|].
    apply (count_free_zero_used (block_map fs2) b); [|exact Hv]. rewrite <- Hf. exact Hz. }
  split; [exact Hret|]. split; [exact Hk|]. split; [exact Hz|]. split; [exact Hall|].
  split; [|split; [rewrite Hino'; reflexivity|split; [rewrite Hino'; reflexivity|]]].
  - intros b Hb. apply Hall.
    destruct Hinv as [(_ & Hl & _ & _ & Hused) _].
    destruct (Hused b) as (v & Hv & _).
    + unfold owned_blocks. simpl. apply elem_of_owned.
      exists ix, m, inode0. subst inode. rewrite Hnth in Hb. auto.
    + rewrite <- Hl. apply lookup_lt_Some in Hv. exact Hv.
  - intros Hpos Heq. rewrite Heq in Hz. lia.
Qed.

Lemma fs_write_frees_before_allocating_witness :
  fs_write (run ops_two_files fs_create) "a" (bytes 256 x43) 256 5
  = (-1, fs_after_nospace)
  /\ 3 = free_blocks (run ops_two_files fs_create)
          + num_blocks (nth 0 (inodes (run ops_two_files fs_create)) zero_inode)
  /\ free_blocks fs_after_nospace = 0
  /\ block_used fs_after_nospace 1
  /\ fs_after_nospace <> run ops_two_files fs_create.
Proof.
  destruct (fs_write_frees_before_allocating (run ops_two_files fs_create) "a"
              (bytes 256 x43) 256 5 0
              (reachable_run ops_two_files fs_create reachable_init)
              ltac:(vm_compute; reflexivity) ltac:(lia)
              ltac:(vm_compute; discriminate))
    as (_ & _ & _ & Hfail).
  destruct (Hfail 3%nat fs_after_nospace ltac:(vm_compute; reflexivity))
    as (Hret & Hk & Hz & _ & Hold & _ & _ & Hchanged).
  split; [exact Hret|]. split; [exact Hk|]. split; [exact Hz|].
  split; [apply (Hold 1%nat); vm_compute; apply list_elem_of_further, list_elem_of_here|].
  apply Hchanged. vm_compute. reflexivity.
Defined.

(** C6 as stated fails on both counts.  With the pool full, "a" holding
    blocks 0 and 1, a write of three blocks to "a" frees the two, takes them
    again and then finds nothing: it returns -1 with blocks 0 and 1 marked
    used, not freed; and as the bytes written to them are the bytes they
    held, the state it returns is the very state it was called in. *)
Lemma fs_write_nospace_old_blocks_not_free :
  lookup_name (run ops_full_pool fs_create) "a" = Some 0%nat
  /\ owned_by (nth 0 (inodes (run ops_full_pool fs_create)) zero_inode) = [0; 1]%nat
  /\ free_blocks (run ops_full_pool fs_create) = 0
  /\ fst (allocate_blocks src_same_prefix 138 (needed_blocks_for 138) 0 0
            (Z.to_nat (needed_blocks_for 138))
            (release_blocks (nth 0 (inodes (run ops_full_pool fs_create)) zero_inode) 0
               (Z.to_nat (num_blocks (nth 0 (inodes (run ops_full_pool fs_create))
                                        zero_inode)))
               (run ops_full_pool fs_create)))
      = AllocNoSpace 2
  /\ fs_write (run ops_full_pool fs_create) "a" src_same_prefix 138 5
      = (-1, run ops_full_pool fs_create)
  /\ block_map (snd (fs_write (run ops_full_pool fs_create) "a" src_same_prefix 138 5))
      !! 0%nat = Some 1
  /\ block_map (snd (fs_write (run ops_full_pool fs_create) "a" src_same_prefix 138 5))
      !! 1%nat = Some 1.
Proof. vm_compute. repeat split; reflexivity. Qed.

(** The data of the file is lost by such a call: before it a read of "a"
    gives the old bytes, after it the bytes of the failed write, under the
    old size. *)
Lemma fs_write_nospace_overwrites_data :
  fst (fs_write fs_two_files "a" (bytes 256 x43) 256 5) = -1
  /\ fs_read fs_two_files "a" (bytes 100 x00) 100
     = (100, bytes 64 x41 ++ bytes 36 x00)
  /\ fs_read fs_after_nospace "a" (bytes 100 x00) 100
     = (100, bytes 100 x43).
Proof. vm_compute. repeat split; reflexivity. Qed.

(** C9: when [fs_write] on a live file of a reachable state runs out of
    blocks at loop index [k], the inode keeps its [num_blocks], and every
    block recorded at a position [j] of its block array with
    [num_blocks <= j < k] is from then on, after any further sequence of
    calls, still marked allocated and in no live inode's first [num_blocks]
    entries: nothing frees it again. *)
Theorem fs_write_nospace_leaks_blocks (fs : filesystem_t) (filename : string)
    (src : list byte) (len now : Z) (ix k : nat) (fs2 : filesystem_t) :
  reachable fs ->
  lookup_name fs filename = Some ix ->
  len <> 0 ->
  needed_blocks_for len <= MAX_BLOCKS ->
  let inode := nth ix (inodes fs) zero_inode in
  allocate_blocks src len (needed_blocks_for len) ix 0
    (Z.to_nat (needed_blocks_for len))
    (release_blocks inode 0 (Z.to_nat (num_blocks inode)) fs)
  = (AllocNoSpace k, fs2) ->
  let inode' := nth ix (inodes fs2) zero_inode in
  fs_write fs filename src len now = (-1, fs2)
  /\ live fs2 ix inode'
  /\ num_blocks inode' = num_blocks inode
  /\ forall j, (Z.to_nat (num_blocks inode) <= j < k)%nat ->
       let b := nth j (inode_blocks inode') 0%nat in
       inode_blocks inode' !! j = Some b
       /\ forall ops,
            block_used (run ops fs2) b
            /\ forall i ino, live (run ops fs2) i ino -> b ∉ owned_by ino.
Proof.
  intros Hr Hlook Hlen Hle inode Halloc inode'.
  pose proof (reachable_inv _ Hr) as Hinv.
  destruct (fs_write_nospace_state [] fs filename src len now ix k fs2
              Hinv Hlook Hlen Hle Halloc)
    as (Hret & Hkn & bs & Hlenbs & Hinos & Hframe & Hk & Hz & Hinv2).
  fold inode in Hinos, Hk, Hinv2.
  destruct (lookup_name_Some _ _ _ Hlook) as (m & inode0 & Hm & Hne & Hi & _ & Hnth).
  assert (Hi' : inodes fs2 !! ix = Some (with_blocks bs inode)).
  { rewrite Hinos. apply list_lookup_insert_eq. apply lookup_lt_Some in Hi. exact Hi. }
  assert (Hino' : inode' = with_blocks bs inode).
  { subst inode'. apply nth_lookup_Some. exact Hi'. }
  split; [exact Hret|]. split; [|split; [rewrite Hino'; reflexivity|]].
  - split; [|rewrite Hino'; exact Hi'].
    exists m. destruct Hframe as (_ & _ & _ & -> & _). split; assumption.
  - intros j Hj b.
    assert (Hjlen : (j < length bs)%nat).
    { rewrite Hlenbs. rewrite MAX_BLOCKS_eq in *. lia. }
    destruct (lookup_lt_is_Some_2 bs j Hjlen) as [b' Hb'].
    assert (Hb : b = b').
    { subst b. rewrite Hino'. simpl. apply nth_lookup_Some. exact Hb'. }
    rewrite Hb. split; [rewrite Hino'; exact Hb'|].
    assert (Hin : b' ∈ drop (Z.to_nat (num_blocks inode)) (take k bs)).
    { apply list_elem_of_lookup. exists (j - Z.to_nat (num_blocks inode))%nat.
      rewrite lookup_drop.
      replace (Z.to_nat (num_blocks inode) + (j - Z.to_nat (num_blocks inode)))%nat
        with j by lia.
      rewrite lookup_take_lt by lia. exact Hb'. }
    intros ops.
    destruct (fs_inv_run _ ops fs2 Hinv2) as [(_ & _ & _ & Hnd & Hused) _].
    simpl in Hnd, Hused. split.
    + apply Hused. apply elem_of_app. left. exact Hin.
    + intros i ino [(mi & Hmi & Hnei) Hii] Hown.
      apply NoDup_app in Hnd as (_ & Hdisj & _).
      apply (Hdisj b' Hin). apply elem_of_owned. exists i, mi, ino. auto.
Qed.

Lemma fs_write_nospace_leaks_blocks_witness :
  nth 2 (inode_blocks (nth 0 (inodes fs_after_nospace) zero_inode)) 0%nat = 15%nat
  /\ num_blocks (nth 0 (inodes fs_after_nospace) zero_inode) = 2
  /\ block_used (run [Delete "a"; Delete "b"] fs_after_nospace)
       (nth 2 (inode_blocks (nth 0 (inodes fs_after_nospace) zero_inode)) 0%nat)
  /\ free_blocks (run [Delete "a"; Delete "b"] fs_after_nospace) = 15.
Proof.
  destruct (fs_write_nospace_leaks_blocks (run ops_two_files fs_create) "a"
              (bytes 256 x43) 256 5 0 3 fs_after_nospace
              (reachable_run ops_two_files fs_create reachable_init)
              ltac:(vm_compute; reflexivity) ltac:(lia)
              ltac:(vm_compute; discriminate) ltac:(vm_compute; reflexivity))
    as (_ & _ & _ & Hleak).
  destruct (Hleak 2%nat ltac:(vm_compute; lia)) as (_ & Hops).
  destruct (Hops [Delete "a"; Delete "b"]) as (Hused & _).
  split; [vm_compute; reflexivity|]. split; [vm_compute; reflexivity|].
  split; [exact Hused|]. vm_compute. reflexivity.
Defined.

(** * Block contents: what a successful write stores and a read returns *)

Lemma memcpy_length dst doff src soff n :
  length (memcpy dst doff src soff n) = length dst.
Proof. unfold memcpy. apply length_inserts. Qed.

(** Copying [k] over a region that is long enough replaces exactly the
    bytes at [length pre], [length pre + 1], ... *)
Lemma list_inserts_middle {A} (off : nat) (pre k rest : list A) :
  off = length pre ->
  (length k <= length rest)%nat ->
  list_inserts off k (pre ++ rest) = pre ++ k ++ drop (length k) rest.
Proof.
  intros -> Hk. rewrite <- (Nat.add_0_r (length pre)), list_inserts_app_r. f_equal.
  rewrite <- (take_drop (length k) rest) at 1.
  apply list_inserts_0_r. rewrite length_take. lia.
Qed.

Lemma chunk_len_range len needed i : 0 <= chunk_len len needed i <= BLOCK_SIZE.
Proof.
  unfold chunk_len, BLOCK_SIZE. destruct (Z.of_nat i =? needed - 1); [|lia].
  pose proof (Z.mod_pos_bound len 64). lia.
Qed.

Lemma allocate_blocks_blocks_ok src size needed ix n i fs :
  Forall block_ok (blocks fs) ->
  Forall block_ok (blocks (snd (allocate_blocks src size needed ix i n fs))).
Proof.
  revert i fs. induction n as [|n IH]; intros i fs Hok; simpl; [exact Hok|].
  destruct (find_free_block fs) as [[b|] fs1] eqn:F.
  - destruct (find_free_block_Some _ _ _ F) as (_ & _ & _ & ->).
    apply IH. simpl. apply Forall_alter; [exact Hok|].
    intros blk _ Hblk. unfold block_ok in *. simpl.
    rewrite memcpy_length. exact Hblk.
  - destruct (find_free_block_None _ _ F) as (-> & _). exact Hok.
Qed.

Lemma blocks_ok_step fs o :
  Forall block_ok (blocks fs) -> Forall block_ok (blocks (step fs o)).
Proof.
  intros Hok. destruct o as [filename now|filename src size now|filename buffer n|filename];
    simpl; [| | exact Hok|].
  - unfold fs_create_file, find_free_inode.
    destruct (MAX_FILENAME <=? strlen filename); [exact Hok|].
    destruct (lookup_name fs filename); [exact Hok|].
    destruct (first_free _ _ _); exact Hok.
  - unfold fs_write.
    destruct (size =? 0); [exact Hok|].
    destruct (lookup_name fs filename) as [ix|]; [|exact Hok].
    destruct (needed_blocks_for size >? MAX_BLOCKS); [exact Hok|].
    set (inode := nth ix (inodes fs) zero_inode).
    pose proof (allocate_blocks_blocks_ok src size (needed_blocks_for size) ix
                  (Z.to_nat (needed_blocks_for size)) 0
                  (release_blocks inode 0 (Z.to_nat (num_blocks inode)) fs)) as H.
    destruct (release_blocks_frame inode (Z.to_nat (num_blocks inode)) 0 fs)
      as (_ & _ & Hb).
    rewrite Hb in H. specialize (H Hok).
    destruct (allocate_blocks _ _ _ _ _ _ _) as [[|k] fs2]; exact H.
  - unfold fs_delete. destruct (lookup_name fs filename) as [ix|]; [|exact Hok].
    simpl. set (inode := nth ix (inodes fs) zero_inode).
    destruct (release_blocks_frame inode (Z.to_nat (num_blocks inode)) 0 fs)
      as (_ & _ & Hb).
    rewrite Hb. exact Hok.
Qed.

Lemma reachable_blocks_ok fs : reachable fs -> Forall block_ok (blocks fs).
Proof.
  induction 1 as [|fs o _ IH]; [|apply blocks_ok_step; exact IH].
  change (blocks fs_create) with (replicate (Z.to_nat (MAX_FILE_SIZE / BLOCK_SIZE)) zero_block).
  apply Forall_replicate. reflexivity.
Qed.

Lemma alloc_inv_nth rest fs0 ix inode0 c0 i fs :
  (ix < length (inodes fs0))%nat ->
  alloc_inv rest fs0 ix inode0 c0 i fs ->
  exists bs,
    length bs = Z.to_nat MAX_BLOCKS
    /\ nth ix (inodes fs) zero_inode = with_blocks bs inode0
    /\ inodes fs !! ix = Some (with_blocks bs inode0)
    /\ length (blocks fs) = length (blocks fs0)
    /\ pool_ok (take i bs ++ rest) fs.
Proof.
  intros Hix (bs & Hlen & Hinos & (_ & _ & _ & _ & Hlb) & Hp & _).
  assert (Hi : inodes fs !! ix = Some (with_blocks bs inode0)).
  { rewrite Hinos. apply list_lookup_insert_eq. exact Hix. }
  exists bs. split; [exact Hlen|]. split; [apply nth_lookup_Some; exact Hi|].
  split; [exact Hi|]. split; [exact Hlb|exact Hp].
Qed.

Lemma stored_step src len needed rest fs0 ix inode0 c0 i fs b :
  (i < Z.to_nat MAX_BLOCKS)%nat ->
  (ix < length (inodes fs0))%nat ->
  length (blocks fs0) = Z.to_nat MAX_BLOCKS ->
  (i * Z.to_nat BLOCK_SIZE + Z.to_nat (chunk_len len needed i) <= length src)%nat ->
  alloc_inv rest fs0 ix inode0 c0 i fs ->
  Forall block_ok (blocks fs) ->
  stored src len needed ix i fs ->
  block_map fs !! b = Some 0 ->
  let fs1 := set_free_blocks (wrap32 (free_blocks fs - 1))
               (set_block_map (<[b := 1]> (block_map fs)) fs) in
  let fs2 := set_inodes (alter (set_inode_block i b) ix (inodes fs1)) fs1 in
  let fs3 := set_blocks
               (alter (fun blk => Block (memcpy (data blk) 0 src (i * Z.to_nat BLOCK_SIZE)
                                           (chunk_len len needed i)))
                      b (blocks fs2)) fs2 in
  stored src len needed ix (S i) fs3.
Proof.
  intros Hi Hix Hlb0 Hsrc Hinv Hok Hst Hb fs1 fs2 fs3 i' Hi'.
  destruct (alloc_inv_nth _ _ _ _ _ _ _ Hix Hinv) as (bs & Hlen & Hnth & Hlook & Hlb & Hp).
  assert (Hnth3 : nth ix (inodes fs3) zero_inode = with_blocks (<[i := b]> bs) inode0).
  { apply nth_lookup_Some. subst fs3 fs2 fs1. simpl.
    rewrite list_lookup_alter_eq, Hlook. reflexivity. }
  assert (Hblt : (b < length (blocks fs))%nat).
  { destruct Hp as (_ & Hl & _). apply lookup_lt_Some in Hb. rewrite Hlb, Hlb0, <- Hl. exact Hb. }
  cbv zeta. rewrite Hnth3. simpl inode_blocks.
  destruct (decide (i' = i)) as [->|Hne].
  - rewrite (nth_lookup_Some _ _ _ b) by (apply list_lookup_insert_eq; lia).
    destruct (lookup_lt_is_Some_2 (blocks fs) b Hblt) as [blk Hblk].
    rewrite (nth_lookup_Some _ _ _
               (Block (memcpy (data blk) 0 src (i * Z.to_nat BLOCK_SIZE)
                         (chunk_len len needed i)))).
    2: { subst fs3 fs2 fs1. simpl. rewrite list_lookup_alter_eq, Hblk. reflexivity. }
    simpl data. unfold memcpy.
    set (k := take (Z.to_nat (chunk_len len needed i)) (drop (i * Z.to_nat BLOCK_SIZE) src)).
    assert (Hk : length k = Z.to_nat (chunk_len len needed i)).
    { subst k. rewrite length_take, length_drop. lia. }
    assert (Hblen : length (data blk) = Z.to_nat BLOCK_SIZE).
    { rewrite Forall_forall in Hok. apply Hok. eapply list_elem_of_lookup_2. exact Hblk. }
    pose proof (chunk_len_range len needed i) as Hr.
    pose proof (list_inserts_middle 0 [] k (data blk) eq_refl) as Hmid. simpl in Hmid.
    rewrite Hmid by lia. rewrite <- Hk. apply take_app_length.
  - assert (Hlt : (i' < i)%nat) by lia.
    specialize (Hst i' Hlt). cbv zeta in Hst. rewrite Hnth in Hst. simpl inode_blocks in Hst.
    assert (Hb' : nth i' (<[i := b]> bs) 0%nat = nth i' bs 0%nat).
    { rewrite !nth_lookup, list_lookup_insert_ne by lia. reflexivity. }
    rewrite Hb'.
    assert (Hused : nth i' bs 0%nat ∈ take i bs).
    { apply elem_of_take. exists i'. split; [|exact Hlt].
      destruct (lookup_lt_is_Some_2 bs i') as [x Hx]; [lia|].
      rewrite (nth_lookup_Some _ _ _ _ Hx). exact Hx. }
    assert (Hdiff : nth i' bs 0%nat <> b).
    { intros Heq. destruct Hp as (_ & _ & _ & _ & Hu).
      destruct (Hu (nth i' bs 0%nat)) as (v & Hv & Hv0); [apply elem_of_app; left; exact Hused|].
      rewrite Heq in Hv. congruence. }
    assert (Hsame : nth (nth i' bs 0%nat) (blocks fs3) zero_block
                    = nth (nth i' bs 0%nat) (blocks fs) zero_block).
    { rewrite (nth_lookup (blocks fs3) (nth i' bs 0%nat)),
        (nth_lookup (blocks fs) (nth i' bs 0%nat)).
      subst fs3 fs2 fs1. simpl.
      rewrite list_lookup_alter_ne by congruence. reflexivity. }
    rewrite Hsame. exact Hst.
Qed.

Lemma allocate_blocks_stored src len needed rest fs0 ix inode0 c0 n i fs fs' :
  (i + n <= Z.to_nat MAX_BLOCKS)%nat ->
  (ix < length (inodes fs0))%nat ->
  length (blocks fs0) = Z.to_nat MAX_BLOCKS ->
  (forall i', (i' < i + n)%nat ->
     (i' * Z.to_nat BLOCK_SIZE + Z.to_nat (chunk_len len needed i') <= length src)%nat) ->
  alloc_inv rest fs0 ix inode0 c0 i fs ->
  Forall block_ok (blocks fs) ->
  stored src len needed ix i fs ->
  allocate_blocks src len needed ix i n fs = (AllocDone, fs') ->
  stored src len needed ix (i + n) fs'.
Proof.
  revert i fs. induction n as [|n IH]; intros i fs Hin Hix Hlb0 Hsrc Hinv Hok Hst Halloc;
    simpl in Halloc.
  - injection Halloc as <-. rewrite Nat.add_0_r. exact Hst.
  - destruct (find_free_block fs) as [[b|] fs1] eqn:F; [|discriminate].
    destruct (find_free_block_Some _ _ _ F) as (Hb & _ & _ & ->).
    replace (i + S n)%nat with (S i + n)%nat by lia.
    refine (IH (S i) _ ltac:(lia) Hix Hlb0 _ _ _ _ Halloc).
    + intros i' Hi'. apply Hsrc. lia.
    + apply (alloc_inv_step rest fs0 ix inode0 c0 i fs b _ ltac:(lia) Hix Hinv Hb).
    + simpl. apply Forall_alter; [exact Hok|].
      intros blk _ Hblk. unfold block_ok in *. simpl. rewrite memcpy_length. exact Hblk.
    + apply (stored_step src len needed rest fs0 ix inode0 c0 i fs b
               ltac:(lia) Hix Hlb0 (Hsrc i ltac:(lia)) Hinv Hok Hst Hb).
Qed.

Lemma read_blocks_roundtrip fs inode src len buffer0 n i :
  (i + n = Z.to_nat (num_blocks inode))%nat ->
  (0 < n)%nat ->
  Z.of_nat (length src) = len ->
  len = (num_blocks inode - 1) * BLOCK_SIZE + len mod BLOCK_SIZE ->
  (length src <= length buffer0)%nat ->
  (forall i', (i' < Z.to_nat (num_blocks inode))%nat ->
     let b := nth i' (inode_blocks inode) 0%nat in
     let c := Z.to_nat (chunk_len len (num_blocks inode) i') in
     take c (data (nth b (blocks fs) zero_block))
     = take c (drop (i' * Z.to_nat BLOCK_SIZE) src)) ->
  read_blocks fs inode len i n
    (take (i * Z.to_nat BLOCK_SIZE) src ++ drop (i * Z.to_nat BLOCK_SIZE) buffer0)
  = src ++ drop (length src) buffer0.
Proof.
  revert i. induction n as [|n IH]; intros i Hin Hn Hlen Hsplit Hbuf Hst; [lia|].
  simpl read_blocks.
  change (if Z.of_nat i =? num_blocks inode - 1 then len mod BLOCK_SIZE else BLOCK_SIZE)
    with (chunk_len len (num_blocks inode) i).
  specialize (Hst i ltac:(lia)) as Hi. cbv zeta in Hi.
  unfold memcpy. rewrite drop_0, Hi.
  pose proof (Z.mod_pos_bound len BLOCK_SIZE ltac:(reflexivity)) as Hmod.
  change (Z.to_nat BLOCK_SIZE) with 64%nat in *. change BLOCK_SIZE with 64 in *.
  set (c := Z.to_nat (chunk_len len (num_blocks inode) i)).
  assert (Hc : (i * 64 + c <= length src)%nat
               /\ (n = 0%nat -> (i * 64 + c = length src)%nat)
               /\ (n <> 0%nat -> c = 64%nat)).
  { subst c. unfold chunk_len. change BLOCK_SIZE with 64.
    destruct (Z.eqb_spec (Z.of_nat i) (num_blocks inode - 1)); lia. }
  destruct Hc as (Hc1 & Hc2 & Hc3).
  rewrite (list_inserts_middle (i * 64) (take (i * 64) src)
             (take c (drop (i * 64) src)) (drop (i * 64) buffer0)).
  2: { rewrite length_take. lia. }
  2: { rewrite length_take, !length_drop. lia. }
  rewrite app_assoc, take_take_drop, length_take, length_drop, drop_drop.
  replace (c `min` (length src - i * 64))%nat with c by lia.
  destruct n as [|n].
  - simpl. rewrite (Hc2 eq_refl), firstn_all. reflexivity.
  - rewrite (Hc3 ltac:(lia)).
    replace (i * 64 + 64)%nat with (S i * 64)%nat by lia.
    apply IH; try assumption; lia.
Qed.

Lemma lookup_from_ext fs fs' filename n i :
  (forall k, live_named fs' filename k = live_named fs filename k) ->
  lookup_from fs' filename i n = lookup_from fs filename i n.
Proof.
  intros H. revert i. induction n as [|n IH]; intros i; simpl; [reflexivity|].
  rewrite H, IH. reflexivity.
Qed.

Lemma needed_blocks_for_small len :
  0 <= len <= MAX_FILE_SIZE ->
  needed_blocks_for len = (len + 63) / 64 /\ needed_blocks_for len <= MAX_BLOCKS.
Proof.
  unfold needed_blocks_for, wrap32, wrap64, MAX_BLOCKS, MAX_FILE_SIZE, BLOCK_SIZE.
  intros H. change (1024 / 64) with 16.
  rewrite (Z.mod_small (len + 64 - 1)) by lia.
  replace (len + 64 - 1) with (len + 63) by lia.
  assert (0 <= (len + 63) / 64 <= 16) by (Z.div_mod_to_equations; lia).
  rewrite Z.mod_small by lia. lia.
Qed.

(** The round trip where it holds: in a reachable state, a write of
    [len] bytes with [len] not a multiple of [BLOCK_SIZE] that reports
    success, followed by a read of [len] bytes into a buffer of at least
    that size, returns [len] and leaves the written bytes at the start of
    the buffer. *)
Theorem write_read_roundtrip (fs : filesystem_t) (filename : string)
    (src : list byte) (len now : Z) (buffer : list byte) :
  reachable fs ->
  Z.of_nat (length src) = len ->
  len <= MAX_FILE_SIZE ->
  len mod BLOCK_SIZE <> 0 ->
  (length src <= length buffer)%nat ->
  fst (fs_write fs filename src len now) = len ->
  fs_read (snd (fs_write fs filename src len now)) filename buffer len
  = (len, src ++ drop (length src) buffer).
Proof.
  intros Hr Hsrc Hmax Hmod Hbuf Hret.
  assert (Hpos : 0 < len).
  { destruct (Z.eq_dec len 0) as [->|]; [exfalso; apply Hmod; reflexivity|lia]. }
  pose proof (reachable_inv _ Hr) as Hinv.
  pose proof (reachable_blocks_ok _ Hr) as Hbok.
  destruct (needed_blocks_for_small len ltac:(lia)) as [Hneeded Hle].
  destruct (lookup_name fs filename) as [ix|] eqn:Hlook.
  2: { unfold fs_write in Hret. rewrite Hlook in Hret.
       destruct (len =? 0); simpl in Hret; lia. }
  rewrite (fs_write_unfold fs filename src len now ix ltac:(lia) Hlook Hle) in *.
  cbv zeta in *.
  destruct (lookup_name_Some _ _ _ Hlook) as (m & inode0 & Hm & Hne & Hi & _ & Hnth).
  rewrite Hnth in *.
  pose proof (write_loops [] fs ix m inode0 src len (needed_blocks_for len)
                Hinv Hm Hne Hi (conj (needed_blocks_for_nonneg len) Hle)) as Hloops.
  cbv zeta in Hloops.
  pose proof (release_alloc_inv [] fs ix m inode0 Hinv Hm Hne Hi) as Hinv0.
  destruct (release_blocks_frame inode0 (Z.to_nat (num_blocks inode0)) 0 fs)
    as (_ & _ & Hblocks1).
  destruct (allocate_blocks src len (needed_blocks_for len) ix 0
              (Z.to_nat (needed_blocks_for len))
              (release_blocks inode0 0 (Z.to_nat (num_blocks inode0)) fs))
    as [[|k] fs2] eqn:Halloc.
  2: { simpl in Hret. lia. }
  set (needed := needed_blocks_for len) in *.
  assert (Hix : (ix < length (inodes fs))%nat) by (apply lookup_lt_Some in Hi; exact Hi).
  pose proof (Z.mod_pos_bound len BLOCK_SIZE ltac:(reflexivity)) as Hmodr.
  assert (Hsplit : len = (needed - 1) * BLOCK_SIZE + len mod BLOCK_SIZE).
  { rewrite Hneeded. unfold BLOCK_SIZE in *. Z.div_mod_to_equations. lia. }
  assert (Hst : stored src len needed ix (0 + Z.to_nat needed) fs2).
  { refine (allocate_blocks_stored src len needed _ fs ix inode0 _ (Z.to_nat needed) 0
              (release_blocks inode0 0 (Z.to_nat (num_blocks inode0)) fs) fs2
              _ Hix _ _ Hinv0 _ _ Halloc).
    - rewrite MAX_BLOCKS_eq in *. lia.
    - apply Hinv.
    - intros i' Hi'. unfold chunk_len.
      change (Z.to_nat BLOCK_SIZE) with 64%nat. unfold BLOCK_SIZE in *.
      destruct (Z.eqb_spec (Z.of_nat i') (needed - 1)); lia.
    - rewrite Hblocks1. exact Hbok.
    - intros i' Hi'. lia. }
  destruct Hloops as (bs & Hlenbs & Hinos & (Ft & Fti & Ffi & Fmap & Flb) & Hp & Hc).
  cbn [fst snd] in *.
  set (fs' := set_inodes (alter (finish_write len needed now) ix (inodes fs2)) fs2).
  set (inode' := finish_write len needed now (with_blocks bs inode0)).
  assert (Hi2 : inodes fs2 !! ix = Some (with_blocks bs inode0)).
  { rewrite Hinos. apply list_lookup_insert_eq. exact Hix. }
  assert (Hi' : inodes fs' !! ix = Some inode').
  { subst fs'. simpl. rewrite list_lookup_alter_eq, Hi2. reflexivity. }
  assert (Hlook' : lookup_name fs' filename = Some ix).
  { rewrite <- Hlook. unfold lookup_name.
    replace (total_inodes fs') with (total_inodes fs) by (symmetry; exact Fti).
    apply lookup_from_ext. intros k. unfold live_named.
    replace (inode_map fs') with (inode_map fs) by (symmetry; exact Fmap).
    destruct (decide (k = ix)) as [->|Hk].
    - rewrite Hi', Hi. reflexivity.
    - subst fs'. simpl. rewrite list_lookup_alter_ne by congruence.
      rewrite Hinos, list_lookup_insert_ne by congruence. reflexivity. }
  unfold fs_read. rewrite Hlook', (nth_lookup_Some _ _ _ _ Hi').
  assert (Hw8 : wrap8 needed = needed).
  { apply wrap8_small. pose proof (needed_blocks_for_nonneg len).
    rewrite MAX_BLOCKS_eq in *. subst needed. lia. }
  assert (Hw32 : wrap32 len = len).
  { apply wrap32_small. unfold MAX_FILE_SIZE in *. lia. }
  assert (Hsize : size inode' = len) by exact Hw32.
  assert (Hnum : num_blocks inode' = needed) by exact Hw8.
  rewrite Hsize, Z.ltb_irrefl, to_int_small by (unfold MAX_FILE_SIZE in *; lia).
  f_equal.
  change buffer with (take (0 * Z.to_nat BLOCK_SIZE) src
                      ++ drop (0 * Z.to_nat BLOCK_SIZE) buffer) at 1.
  apply read_blocks_roundtrip.
  - rewrite Hnum. reflexivity.
  - rewrite Hnum. subst needed. rewrite Hneeded.
    unfold BLOCK_SIZE in *. Z.div_mod_to_equations. lia.
  - exact Hsrc.
  - rewrite Hnum. exact Hsplit.
  - exact Hbuf.
  - intros i' Hlt. rewrite Hnum in Hlt |- *.
    specialize (Hst i' ltac:(lia)). cbv zeta in Hst |- *.
    rewrite (nth_lookup_Some _ _ _ _ Hi2) in Hst. exact Hst.
Qed.

(** The value [fs_read] returns on a known name is the smaller of [max_size]
    and the file's size. *)
Lemma fs_read_returns_min (fs : filesystem_t) (filename : string)
    (buffer : list byte) (max_size : Z) (ix : nat) :
  lookup_name fs filename = Some ix ->
  0 <= max_size < 2 ^ 31 ->
  0 <= size (nth ix (inodes fs) zero_inode) < 2 ^ 31 ->
  fst (fs_read fs filename buffer max_size)
  = Z.min max_size (size (nth ix (inodes fs) zero_inode)).
Proof.
  intros Hlook Hmax Hsize. unfold fs_read. rewrite Hlook. cbn [fst].
  destruct (Z.ltb_spec max_size (size (nth ix (inodes fs) zero_inode)));
    rewrite to_int_small by lia; lia.
Qed.

(** * Names of the live inodes *)

Lemma live_lookup fs i inode :
  live fs i inode ->
  exists m, inode_map fs !! i = Some m /\ m <> 0 /\ inodes fs !! i = Some inode.
Proof. intros [(m & Hm & Hne) Hi]. eauto. Qed.

Lemma lookup_name_live fs filename i inode :
  fs_inv [] fs -> live fs i inode -> name inode = filename ->
  lookup_name fs filename = Some i.
Proof.
  intros [_ (Hti & _ & _ & Hlm & _ & _ & [Huniq _])] Hlive Hname.
  destruct (live_lookup _ _ _ Hlive) as (m & Hm & Hne & Hi).
  apply lookup_from_Some_intro.
  - apply lookup_lt_Some in Hm. rewrite Hti. lia.
  - apply live_named_true. eauto 10.
  - intros k Hk. destruct (live_named fs filename k) eqn:E; [|reflexivity]. exfalso.
    apply live_named_true in E as (m' & inode' & Hm' & Hne' & Hi' & Hname').
    assert (k = i); [|lia].
    apply (Huniq k i m' m filename); try assumption.
    + rewrite list_lookup_fmap, Hi'. simpl. congruence.
    + rewrite list_lookup_fmap, Hi. simpl. congruence.
Qed.

Lemma lookup_name_None_live fs filename :
  fs_inv [] fs ->
  (lookup_name fs filename = None <->
   forall i inode, live fs i inode -> name inode <> filename).
Proof.
  intros Hinv. split.
  - intros Hnone i inode Hlive Hname.
    rewrite (lookup_name_live fs filename i inode Hinv Hlive Hname) in Hnone.
    discriminate.
  - intros H. destruct (lookup_name fs filename) as [ix|] eqn:E; [|reflexivity].
    exfalso. destruct (lookup_name_Some _ _ _ E) as (m & inode & Hm & Hne & Hi & Hn & _).
    apply (H ix inode); [|exact Hn]. split; eauto.
Qed.

(** X1: in a reachable state a live inode's name is shorter than
    [MAX_FILENAME], no other live inode has it, and the name lookup of
    write / read / delete finds exactly that slot. *)
Theorem live_names_unique (fs : filesystem_t) (i : nat) (inode : inode_t) :
  reachable fs ->
  live fs i inode ->
  strlen (name inode) < MAX_FILENAME
  /\ lookup_name fs (name inode) = Some i
  /\ forall j inode', live fs j inode' -> name inode' = name inode -> j = i.
Proof.
  intros Hr Hlive. pose proof (reachable_inv _ Hr) as Hinv.
  destruct (live_lookup _ _ _ Hlive) as (m & Hm & Hne & Hi).
  pose proof Hinv as [_ (_ & _ & _ & _ & _ & _ & [Huniq Hshort])].
  split; [|split].
  - apply (Hshort i m (name inode) Hm Hne). rewrite list_lookup_fmap, Hi. reflexivity.
  - apply (lookup_name_live fs (name inode) i inode Hinv Hlive eq_refl).
  - intros j inode' Hlive' Hname.
    pose proof (lookup_name_live fs (name inode) j inode' Hinv Hlive' Hname) as H1.
    pose proof (lookup_name_live fs (name inode) i inode Hinv Hlive eq_refl) as H2.
    congruence.
Qed.

Lemma live_names_unique_witness :
  lookup_name (run ops_two_files fs_create)
    (name (nth 1 (inodes (run ops_two_files fs_create)) zero_inode)) = Some 1%nat.
Proof.
  apply (live_names_unique (run ops_two_files fs_create) 1
           (nth 1 (inodes (run ops_two_files fs_create)) zero_inode)
           (reachable_run ops_two_files fs_create reachable_init)).
  split; [exists 1; split; [vm_compute; reflexivity|lia]|vm_compute; reflexivity].
Defined.

(** * Block lists never overlap *)

Lemma owned_by_lookup inode p b :
  Z.of_nat p < num_blocks inode -> inode_blocks inode !! p = Some b ->
  owned_by inode !! p = Some b.
Proof. intros Hp Hb. unfold owned_by. rewrite lookup_take_lt by lia. exact Hb. Qed.

(** X2: in a reachable state a live inode has at most [MAX_BLOCKS] blocks,
    each entry of its block list is an index of the pool, and no block index
    occurs twice, neither in two live inodes' lists nor at two positions of
    one list. *)
Theorem block_lists_disjoint (fs : filesystem_t) (i j : nat)
    (inode1 inode2 : inode_t) (p q b : nat) :
  reachable fs ->
  live fs i inode1 -> live fs j inode2 ->
  Z.of_nat p < num_blocks inode1 -> inode_blocks inode1 !! p = Some b ->
  Z.of_nat q < num_blocks inode2 -> inode_blocks inode2 !! q = Some b ->
  i = j /\ p = q
  /\ (b < Z.to_nat (total_blocks fs))%nat
  /\ (b < length (blocks fs))%nat
  /\ num_blocks inode1 <= MAX_BLOCKS.
Proof.
  intros Hr Hl1 Hl2 Hp Hb1 Hq Hb2. pose proof (reachable_inv _ Hr) as [Hpool Htab].
  destruct (live_lookup _ _ _ Hl1) as (m1 & Hm1 & Hne1 & Hi1).
  destruct (live_lookup _ _ _ Hl2) as (m2 & Hm2 & Hne2 & Hi2).
  destruct Hpool as (Ht & Hlm & _ & Hnd & Hused). simpl in Hnd, Hused.
  destruct Htab as (_ & Hlb & _ & _ & Hok & _).
  pose proof (owned_by_lookup _ _ _ Hp Hb1) as Ho1.
  pose proof (owned_by_lookup _ _ _ Hq Hb2) as Ho2.
  unfold owned_blocks in Hnd, Hused.
  assert (Hij : i = j).
  { destruct (decide (i = j)) as [|Hne]; [assumption|]. exfalso.
    rewrite (owned_split _ _ _ _ _ Hm1 Hne1 Hi1) in Hnd.
    apply NoDup_app in Hnd as (_ & Hdisj & _).
    apply (Hdisj b); [eapply list_elem_of_lookup_2; exact Ho1|].
    apply elem_of_owned. exists j, m2, inode2.
    rewrite list_lookup_insert_ne by exact Hne.
    repeat split; try assumption. eapply list_elem_of_lookup_2. exact Ho2. }
  subst j. assert (inode2 = inode1) as -> by congruence.
  split; [reflexivity|]. split.
  - rewrite (owned_split _ _ _ _ _ Hm1 Hne1 Hi1) in Hnd.
    apply NoDup_app in Hnd as (Hnd1 & _ & _).
    apply (NoDup_lookup _ _ _ _ Hnd1 Ho1 Ho2).
  - destruct (Hused b) as (v & Hv & _).
    { apply elem_of_owned. exists i, m1, inode1. repeat split; try assumption.
      eapply list_elem_of_lookup_2. exact Ho1. }
    apply lookup_lt_Some in Hv. rewrite Forall_forall in Hok.
    destruct (Hok inode1) as [_ Hn]; [eapply list_elem_of_lookup_2; exact Hi1|].
    rewrite Ht, Hlb, <- Hlm. repeat split; try assumption. apply Hn.
Qed.

Lemma block_lists_disjoint_witness :
  (5 < length (blocks (run ops_two_files fs_create)))%nat
  /\ num_blocks (nth 1 (inodes (run ops_two_files fs_create)) zero_inode) <= MAX_BLOCKS.
Proof.
  destruct (block_lists_disjoint (run ops_two_files fs_create) 1 1
              (nth 1 (inodes (run ops_two_files fs_create)) zero_inode)
              (nth 1 (inodes (run ops_two_files fs_create)) zero_inode) 3 3 5
              (reachable_run ops_two_files fs_create reachable_init))
    as (_ & _ & _ & H1 & H2).
  - split; [exists 1; split; [vm_compute; reflexivity|lia]|vm_compute; reflexivity].
  - split; [exists 1; split; [vm_compute; reflexivity|lia]|vm_compute; reflexivity].
  - vm_compute. reflexivity.
  - vm_compute. reflexivity.
  - vm_compute. reflexivity.
  - vm_compute. reflexivity.
  - split; assumption.
Defined.

(** * fs_create_file *)

Lemma first_free_None_count (map : list Z) :
  first_free map 0 (length map) = None <-> count_free map = 0.
Proof.
  split; [apply first_free_full; reflexivity|].
  intros Hc. destruct (first_free map 0 (length map)) as [j|] eqn:F; [|reflexivity].
  exfalso. destruct (first_free_Some _ _ _ _ F) as (_ & Hj & _).
  apply (count_free_zero_used map j 0 Hc Hj). reflexivity.
Qed.

Lemma inv_first_free_inode fs :
  fs_inv [] fs ->
  (first_free (inode_map fs) 0 (Z.to_nat (total_inodes fs)) = None
   <-> free_inodes fs = 0).
Proof.
  intros [_ (Hti & _ & _ & Hlm & _ & Hfi & _)].
  rewrite Hti, <- Hlm, Hfi. apply first_free_None_count.
Qed.

(** X3: in a reachable state [fs_create_file] returns -1 exactly when the
    name has [MAX_FILENAME] characters or more, or a live inode has the name
    already, or no inode is free; and then the state is unchanged. *)
Theorem fs_create_file_fails_iff (fs : filesystem_t) (filename : string) (now : Z) :
  reachable fs ->
  (fst (fs_create_file fs filename now) = -1
   <-> MAX_FILENAME <= strlen filename
       \/ (exists i inode, live fs i inode /\ name inode = filename)
       \/ free_inodes fs = 0)
  /\ (fst (fs_create_file fs filename now) = -1 ->
      snd (fs_create_file fs filename now) = fs).
Proof.
  intros Hr. pose proof (reachable_inv _ Hr) as Hinv.
  destruct (Z.leb_spec MAX_FILENAME (strlen filename)) as [Hge|Hlt].
  { rewrite fs_create_file_fail by auto. simpl. split; [|reflexivity].
    split; [intros _; left; exact Hge|reflexivity]. }
  destruct (lookup_name fs filename) as [ix|] eqn:Hlook.
  { rewrite fs_create_file_fail by (right; left; rewrite Hlook; eauto).
    simpl. split; [|reflexivity]. split; [intros _|reflexivity].
    right. left. destruct (lookup_name_Some _ _ _ Hlook) as (m & inode & Hm & Hne & Hi & Hn & _).
    exists ix, inode. split; [split; eauto|exact Hn]. }
  destruct (first_free (inode_map fs) 0 (Z.to_nat (total_inodes fs))) as [j|] eqn:F.
  - destruct (fs_create_file_ok [] fs filename now j Hinv Hlt Hlook F) as (inode & _ & Heq & _).
    rewrite Heq. simpl. split; [|lia]. split; [lia|].
    intros [H|[(i & ino & Hlive & Hname)|H]]; exfalso.
    + lia.
    + apply (proj1 (lookup_name_None_live fs filename Hinv) Hlook i ino Hlive Hname).
    + apply (inv_first_free_inode fs Hinv) in H. congruence.
  - rewrite fs_create_file_fail by auto. simpl. split; [|reflexivity].
    split; [intros _|reflexivity]. right. right.
    apply (inv_first_free_inode fs Hinv). exact F.
Qed.

(** X4: when [fs_create_file] succeeds in a reachable state, it returns the
    lowest free inode index; that slot is then live with the given name,
    size 0, no blocks, both time stamps [now], not a directory; the name
    lookup finds it; one inode less is free and the block pool is
    untouched; and a read of the new file returns 0 and leaves the buffer
    alone. *)
Theorem fs_create_file_makes_empty_file (fs : filesystem_t) (filename : string)
    (now : Z) :
  reachable fs ->
  fst (fs_create_file fs filename now) <> -1 ->
  let fs' := snd (fs_create_file fs filename now) in
  exists j inode,
    fst (fs_create_file fs filename now) = Z.of_nat j
    /\ inode_map fs !! j = Some 0
    /\ (forall k, (k < j)%nat -> inode_map fs !! k <> Some 0)
    /\ live fs' j inode
    /\ name inode = filename /\ size inode = 0 /\ num_blocks inode = 0
    /\ created inode = now /\ modified inode = now /\ is_directory inode = 0
    /\ lookup_name fs' filename = Some j
    /\ free_inodes fs' = free_inodes fs - 1
    /\ free_blocks fs' = free_blocks fs
    /\ block_map fs' = block_map fs
    /\ blocks fs' = blocks fs
    /\ forall buffer max_size, 0 <= max_size ->
         fs_read fs' filename buffer max_size = (0, buffer).
Proof.
  intros Hr Hok fs'. pose proof (reachable_inv _ Hr) as Hinv.
  destruct (Z.leb_spec MAX_FILENAME (strlen filename)) as [Hge|Hlt].
  { exfalso. apply Hok. rewrite fs_create_file_fail by auto. reflexivity. }
  destruct (lookup_name fs filename) as [ix|] eqn:Hlook.
  { exfalso. apply Hok. rewrite fs_create_file_fail by (right; left; rewrite Hlook; eauto).
    reflexivity. }
  destruct (first_free (inode_map fs) 0 (Z.to_nat (total_inodes fs))) as [j|] eqn:F.
  2: { exfalso. apply Hok. rewrite fs_create_file_fail by auto. reflexivity. }
  destruct (fs_create_file_ok [] fs filename now j Hinv Hlt Hlook F)
    as (inode0 & Hi0 & Heq & Hinv').
  destruct (first_free_Some _ _ _ _ F) as (_ & Hj & Hlow).
  subst fs'. rewrite Heq in *. cbn [fst snd] in *.
  set (fs' := set_inodes _ _) in *.
  set (inode := init_inode filename now inode0).
  assert (Hlive : live fs' j inode).
  { split.
    - exists 1. split; [|lia]. subst fs'. simpl.
      apply list_lookup_insert_eq. apply lookup_lt_Some in Hj. exact Hj.
    - subst fs'. simpl. apply list_lookup_insert_eq. apply lookup_lt_Some in Hi0. exact Hi0. }
  assert (Hname : name inode = filename) by (apply strncpy_short; exact Hlt).
  assert (Hfind : lookup_name fs' filename = Some j).
  { apply (lookup_name_live fs' filename j inode Hinv' Hlive Hname). }
  exists j, inode. split; [reflexivity|]. split; [exact Hj|].
  split; [intros k Hk; apply Hlow; lia|]. split; [exact Hlive|].
  split; [exact Hname|]. do 5 (split; [reflexivity|]).
  split; [exact Hfind|]. do 4 (split; [reflexivity|]).
  intros buffer max_size Hmax. unfold fs_read. rewrite Hfind.
  destruct Hlive as [_ Hi]. rewrite (nth_lookup_Some _ _ _ _ Hi).
  change (size inode) with 0. change (num_blocks inode) with 0.
  destruct (Z.ltb_spec max_size 0); [lia|]. reflexivity.
Qed.

Lemma fs_create_file_fails_iff_witness :
  fst (fs_create_file (run ops_two_files fs_create) "a" 7) = -1
  /\ snd (fs_create_file (run ops_two_files fs_create) "a" 7)
     = run ops_two_files fs_create.
Proof.
  destruct (fs_create_file_fails_iff (run ops_two_files fs_create) "a" 7
              (reachable_run ops_two_files fs_create reachable_init)) as [Hiff Hsame].
  assert (H : fst (fs_create_file (run ops_two_files fs_create) "a" 7) = -1).
  { apply (proj2 Hiff). right. left.
    exists 0%nat, (nth 0 (inodes (run ops_two_files fs_create)) zero_inode).
    split; [|vm_compute; reflexivity].
    split; [exists 1; split; [vm_compute; reflexivity|lia]|vm_compute; reflexivity]. }
  split; [exact H|exact (Hsame H)].
Defined.

Lemma fs_create_file_makes_empty_file_witness :
  exists j inode,
    fst (fs_create_file (run ops_two_files fs_create) "c" 7) = Z.of_nat j
    /\ live (snd (fs_create_file (run ops_two_files fs_create) "c" 7)) j inode
    /\ size inode = 0.
Proof.
  destruct (fs_create_file_makes_empty_file (run ops_two_files fs_create) "c" 7
              (reachable_run ops_two_files fs_create reachable_init)
              ltac:(vm_compute; discriminate))
    as (j & inode & H1 & _ & _ & H2 & _ & H3 & _).
  exists j, inode. auto.
Defined.

(** * fs_write: when it succeeds and what it records *)

(** X5: on a live file of a reachable state, a write of [len] bytes with
    [0 < len <= MAX_FILE_SIZE] returns either [len] or -1, and [len] exactly
    when the blocks needed, [ceil(len / BLOCK_SIZE)], are at most the free
    blocks plus the blocks the file holds already.  On success the inode has
    size [len], that many blocks, [modified = now], its name and creation
    time as before; [free_blocks] has changed by the old block count minus
    the new one; the inode table is otherwise as it was and the name is
    still found in the same slot. *)
Theorem fs_write_succeeds_iff (fs : filesystem_t) (filename : string)
    (src : list byte) (len now : Z) (ix : nat) :
  reachable fs ->
  lookup_name fs filename = Some ix ->
  0 < len <= MAX_FILE_SIZE ->
  let inode := nth ix (inodes fs) zero_inode in
  let needed := (len + BLOCK_SIZE - 1) / BLOCK_SIZE in
  let r := fst (fs_write fs filename src len now) in
  let fs' := snd (fs_write fs filename src len now) in
  let inode' := nth ix (inodes fs') zero_inode in
  (r = len \/ r = -1)
  /\ (r = len <-> needed <= free_blocks fs + num_blocks inode)
  /\ (r = len ->
      size inode' = len /\ num_blocks inode' = needed /\ modified inode' = now
      /\ created inode' = created inode /\ name inode' = filename
      /\ is_directory inode' = is_directory inode
      /\ free_blocks fs' = free_blocks fs + num_blocks inode - needed
      /\ free_inodes fs' = free_inodes fs
      /\ inode_map fs' = inode_map fs
      /\ (forall k, k <> ix -> inodes fs' !! k = inodes fs !! k)
      /\ lookup_name fs' filename = Some ix).
Proof.
  intros Hr Hlook Hlen inode needed r fs' inode'.
  pose proof (reachable_inv _ Hr) as Hinv.
  destruct (needed_blocks_for_small len ltac:(lia)) as [Hneeded Hle].
  assert (Hn : needed_blocks_for len = needed).
  { rewrite Hneeded. subst needed. unfold BLOCK_SIZE. f_equal. lia. }
  destruct (lookup_name_Some _ _ _ Hlook) as (m & inode0 & Hm & Hne & Hi & Hname & Hnth).
  assert (Hix : (ix < length (inodes fs))%nat) by (apply lookup_lt_Some in Hi; exact Hi).
  pose proof (write_loops [] fs ix m inode0 src len (needed_blocks_for len)
                Hinv Hm Hne Hi (conj (needed_blocks_for_nonneg len) Hle)) as Hloops.
  cbv zeta in Hloops.
  subst r fs' inode'. subst inode.
  rewrite (fs_write_unfold fs filename src len now ix ltac:(lia) Hlook Hle).
  cbv zeta. rewrite Hnth in *.
  destruct (allocate_blocks src len (needed_blocks_for len) ix 0
              (Z.to_nat (needed_blocks_for len))
              (release_blocks inode0 0 (Z.to_nat (num_blocks inode0)) fs))
    as [[|k] fs2] eqn:Halloc.
  - destruct (write_done_inv [] fs ix m inode0 _ len (needed_blocks_for len) now fs2
                (proj2 Hinv) Hm Hne Hi (conj (needed_blocks_for_nonneg len) Hle) Hloops)
      as (Hinv' & Hfree & _ & bs & Hinos).
    pose proof (pool_ok_count _ _ (proj1 Hinv')) as Hcount.
    destruct Hloops as (_ & _ & _ & (_ & _ & Ffi & Fmap & _) & _ & _).
    cbn [fst snd] in *.
    set (fs' := set_inodes _ fs2) in *.
    assert (Hret : to_int len = len).
    { apply to_int_small. unfold MAX_FILE_SIZE in *. lia. }
    assert (Hi' : inodes fs' !! ix
                  = Some (finish_write len (needed_blocks_for len) now (with_blocks bs inode0))).
    { rewrite Hinos. apply list_lookup_insert_eq. exact Hix. }
    rewrite (nth_lookup_Some _ _ _ _ Hi').
    assert (Hw8 : wrap8 (needed_blocks_for len) = needed).
    { rewrite Hn. apply wrap8_small. pose proof (needed_blocks_for_nonneg len).
      rewrite MAX_BLOCKS_eq in *. lia. }
    assert (Hw32 : wrap32 len = len).
    { apply wrap32_small. unfold MAX_FILE_SIZE in *. lia. }
    rewrite Hret. split; [left; reflexivity|]. split.
    + split; [intros _; lia|reflexivity].
    + intros _. cbn [size num_blocks modified created name is_directory finish_write with_blocks].
      split; [exact Hw32|]. split; [exact Hw8|]. split; [reflexivity|].
      split; [reflexivity|]. split; [exact Hname|]. split; [reflexivity|].
      split; [lia|]. split; [exact Ffi|]. split; [exact Fmap|]. split.
      * intros k Hk. rewrite Hinos. apply list_lookup_insert_ne. congruence.
      * apply (lookup_name_live fs' filename ix
                 (finish_write len (needed_blocks_for len) now (with_blocks bs inode0))
                 Hinv'); [|exact Hname].
        split; [|exact Hi']. exists m. change (inode_map fs') with (inode_map fs2).
        rewrite Fmap. split; assumption.
  - destruct Hloops as (Hk & Ha & Hz).
    destruct (write_nospace_inv [] fs ix m inode0 k fs2 Hinv Hm Hne Hi Ha Hz)
      as (_ & _ & _ & _ & Hkeq & _).
    cbn [fst snd]. split; [right; reflexivity|]. split; [|lia].
    split; [lia|]. intros Hspace. exfalso.
    pose proof (needed_blocks_for_nonneg len). lia.
Qed.

Lemma fs_write_succeeds_iff_witness :
  fst (fs_write (run ops_two_files fs_create) "a" (bytes 192 x43) 192 5) = 192
  /\ fst (fs_write (run ops_two_files fs_create) "a" (bytes 256 x43) 256 5) = -1.
Proof.
  destruct (fs_write_succeeds_iff (run ops_two_files fs_create) "a" (bytes 192 x43) 192 5 0
              (reachable_run ops_two_files fs_create reachable_init)
              ltac:(vm_compute; reflexivity) ltac:(unfold MAX_FILE_SIZE; lia))
    as (_ & Hiff & _).
  destruct (fs_write_succeeds_iff (run ops_two_files fs_create) "a" (bytes 256 x43) 256 5 0
              (reachable_run ops_two_files fs_create reachable_init)
              ltac:(vm_compute; reflexivity) ltac:(unfold MAX_FILE_SIZE; lia))
    as (Hor & Hiff' & _).
  split.
  - apply Hiff. vm_compute. discriminate.
  - destruct Hor as [H|H]; [|exact H]. exfalso.
    apply Hiff' in H. vm_compute in H. apply H. reflexivity.
Defined.

(** X6: [fs_write] refuses a size of 0 and any size above [MAX_FILE_SIZE]
    (up to the largest one whose block count still fits 32 bits): it
    returns -1 and changes nothing, whether or not the file exists. *)
Theorem fs_write_rejects_bad_size (fs : filesystem_t) (filename : string)
    (src : list byte) (len now : Z) :
  len = 0 \/ (MAX_FILE_SIZE < len <= (2 ^ 38 - BLOCK_SIZE)) ->
  fs_write fs filename src len now = (-1, fs).
Proof.
  intros H. unfold fs_write.
  destruct (Z.eqb_spec len 0) as [|Hne]; [reflexivity|].
  destruct H as [H|H]; [contradiction|].
  destruct (lookup_name fs filename); [|reflexivity].
  assert (Hbig : (needed_blocks_for len >? MAX_BLOCKS) = true).
  { apply Z.gtb_lt. unfold needed_blocks_for, wrap32, wrap64, MAX_BLOCKS,
      MAX_FILE_SIZE, BLOCK_SIZE in *. change (1024 / 64) with 16.
    rewrite (Z.mod_small (len + 64 - 1)) by lia.
    assert (17 <= (len + 64 - 1) / 64 /\ (len + 64 - 1) / 64 < 2 ^ 32)
      by (Z.div_mod_to_equations; lia).
    rewrite Z.mod_small by lia. lia. }
  rewrite Hbig. reflexivity.
Qed.

Lemma fs_write_rejects_bad_size_witness :
  fs_write (run ops_two_files fs_create) "a" (bytes 1025 x43) 1025 5
  = (-1, run ops_two_files fs_create).
Proof.
  apply (fs_write_rejects_bad_size (run ops_two_files fs_create) "a" (bytes 1025 x43) 1025 5).
  right. unfold MAX_FILE_SIZE, BLOCK_SIZE. lia.
Defined.

(** * Names that are not there *)

(** X7: in a reachable state, when no live inode has the name, [fs_write],
    [fs_read] and [fs_delete] on it return -1 and change neither the state
    nor the buffer. *)
Theorem unknown_name_fails (fs : filesystem_t) (filename : string)
    (src buffer : list byte) (len now max_size : Z) :
  reachable fs ->
  (forall i inode, live fs i inode -> name inode <> filename) ->
  fs_write fs filename src len now = (-1, fs)
  /\ fs_read fs filename buffer max_size = (-1, buffer)
  /\ fs_delete fs filename = (-1, fs).
Proof.
  intros Hr Hnone. pose proof (reachable_inv _ Hr) as Hinv.
  apply (lookup_name_None_live fs filename Hinv) in Hnone.
  unfold fs_write, fs_read, fs_delete. rewrite Hnone.
  destruct (len =? 0); auto.
Qed.

Lemma unknown_name_fails_witness :
  fs_read (run ops_two_files fs_create) "zz" (bytes 4 x00) 4 = (-1, bytes 4 x00).
Proof.
  apply (unknown_name_fails (run ops_two_files fs_create) "zz" [] (bytes 4 x00) 0 0 4
           (reachable_run ops_two_files fs_create reachable_init)).
  intros i inode Hlive Hname.
  pose proof (lookup_name_live (run ops_two_files fs_create) "zz" i inode
                (reachable_inv _ (reachable_run ops_two_files fs_create reachable_init))
                Hlive Hname) as H.
  vm_compute in H. discriminate.
Defined.

(** X8: after a successful [fs_delete] in a reachable state no live inode
    has the name any more, every other live inode is as before, and a second
    delete, a read or a write of the name returns -1 without changing
    anything. *)
Theorem fs_delete_forgets_name (fs : filesystem_t) (filename : string) :
  reachable fs ->
  fst (fs_delete fs filename) = 0 ->
  let fs' := snd (fs_delete fs filename) in
  (forall i inode, live fs' i inode -> name inode <> filename)
  /\ (forall i inode, live fs' i inode -> live fs i inode)
  /\ (forall i inode, live fs i inode -> name inode <> filename -> live fs' i inode)
  /\ fs_delete fs' filename = (-1, fs')
  /\ (forall buffer max_size, fs_read fs' filename buffer max_size = (-1, buffer))
  /\ (forall src len now, fs_write fs' filename src len now = (-1, fs')).
Proof.
  intros Hr Hret fs'. pose proof (reachable_inv _ Hr) as Hinv.
  destruct (lookup_name fs filename) as [ix|] eqn:Hlook.
  2: { unfold fs_delete in Hret. rewrite Hlook in Hret. discriminate. }
  destruct (fs_delete_spec [] fs filename ix Hinv Hlook)
    as (_ & Hinv' & _ & _ & Hmap & Hinos & _).
  fold fs' in Hinv', Hmap, Hinos.
  destruct (lookup_name_Some _ _ _ Hlook) as (m & inode0 & Hm & Hne & Hi & Hname & _).
  assert (Hback : forall i inode, live fs' i inode -> i <> ix /\ live fs i inode).
  { intros i inode [(mi & Hmi & Hnei) Hii]. rewrite Hmap in Hmi. rewrite Hinos in Hii.
    assert (i <> ix) as Hix.
    { intros ->. rewrite list_lookup_insert_eq in Hmi by (apply lookup_lt_Some in Hm; exact Hm).
      congruence. }
    rewrite list_lookup_insert_ne in Hmi by congruence.
    rewrite list_lookup_insert_ne in Hii by congruence.
    split; [exact Hix|]. split; eauto. }
  assert (Hgone : forall i inode, live fs' i inode -> name inode <> filename).
  { intros i inode Hlive Hn. destruct (Hback i inode Hlive) as [Hix Hlive0].
    pose proof (lookup_name_live fs filename i inode Hinv Hlive0 Hn) as H. congruence. }
  pose proof (proj2 (lookup_name_None_live fs' filename Hinv') Hgone) as Hnone.
  split; [exact Hgone|]. split; [intros i inode Hl; apply (Hback i inode Hl)|]. split.
  - intros i inode [(mi & Hmi & Hnei) Hii] Hn.
    assert (i <> ix) as Hix by (intros ->; congruence).
    split; [exists mi; rewrite Hmap, list_lookup_insert_ne by congruence; auto|].
    rewrite Hinos, list_lookup_insert_ne by congruence. exact Hii.
  - unfold fs_delete at 1, fs_read, fs_write. rewrite Hnone.
    split; [reflexivity|]. split; [reflexivity|].
    intros src len now. destruct (len =? 0); reflexivity.
Qed.

Lemma fs_delete_forgets_name_witness :
  fs_delete (snd (fs_delete (run ops_two_files fs_create) "a")) "a"
  = (-1, snd (fs_delete (run ops_two_files fs_create) "a")).
Proof.
  destruct (fs_delete_forgets_name (run ops_two_files fs_create) "a"
              (reachable_run ops_two_files fs_create reachable_init)
              ltac:(vm_compute; reflexivity))
    as (_ & _ & _ & H & _).
  exact H.
Defined.

(** * fs_read: how far it writes *)

Lemma read_blocks_length fs inode to_read n i buffer :
  length (read_blocks fs inode to_read i n buffer) = length buffer.
Proof.
  revert i buffer. induction n as [|n IH]; intros i buffer; simpl; [reflexivity|].
  rewrite IH. apply memcpy_length.
Qed.

Lemma read_blocks_beyond fs inode to_read n i buffer j :
  ((i + n) * Z.to_nat BLOCK_SIZE <= j)%nat ->
  read_blocks fs inode to_read i n buffer !! j = buffer !! j.
Proof.
  revert i buffer. induction n as [|n IH]; intros i buffer Hj; simpl; [reflexivity|].
  rewrite IH by lia. unfold memcpy.
  apply list_lookup_inserts_ge. rewrite length_take.
  remember (if Z.of_nat i =? num_blocks inode - 1
            then to_read mod BLOCK_SIZE else BLOCK_SIZE) as c eqn:Ec.
  assert (Hc : c <= 64).
  { pose proof (Z.mod_pos_bound to_read BLOCK_SIZE ltac:(reflexivity)).
    subst c. unfold BLOCK_SIZE in *. destruct (Z.of_nat i =? num_blocks inode - 1); lia. }
  change (Z.to_nat BLOCK_SIZE) with 64%nat in *. lia.
Qed.

(** X9: [fs_read] keeps the length of the caller's memory and never writes
    at or beyond position [BLOCK_SIZE * num_blocks] of it; in a reachable
    state that is at most [MAX_FILE_SIZE], so nothing at or beyond position
    [MAX_FILE_SIZE] is ever written, whatever [max_size] is. *)
Theorem fs_read_stays_within_blocks (fs : filesystem_t) (filename : string)
    (buffer : list byte) (max_size : Z) :
  reachable fs ->
  let out := snd (fs_read fs filename buffer max_size) in
  length out = length buffer
  /\ (forall ix j, lookup_name fs filename = Some ix ->
        Z.to_nat (BLOCK_SIZE * num_blocks (nth ix (inodes fs) zero_inode)) <= j ->
        out !! j = buffer !! j)%nat
  /\ (forall j, Z.to_nat MAX_FILE_SIZE <= j -> out !! j = buffer !! j)%nat.
Proof.
  intros Hr out. pose proof (reachable_inv _ Hr) as Hinv. subst out.
  unfold fs_read. destruct (lookup_name fs filename) as [ix|] eqn:Hlook; cbn [snd].
  2: { split; [reflexivity|]. split; [discriminate|reflexivity]. }
  destruct (lookup_name_Some _ _ _ Hlook) as (m & inode & Hm & Hne & Hi & _ & Hnth).
  rewrite Hnth.
  assert (Hok : inode_ok inode).
  { destruct Hinv as [_ (_ & _ & _ & _ & Hok & _)]. rewrite Forall_forall in Hok.
    apply Hok. eapply list_elem_of_lookup_2. exact Hi. }
  destruct Hok as [_ Hn]. rewrite MAX_BLOCKS_eq in Hn.
  split; [apply read_blocks_length|]. split.
  - intros ix' j Heq Hj. injection Heq as <-. rewrite Hnth in Hj.
    apply read_blocks_beyond. change (Z.to_nat BLOCK_SIZE) with 64%nat.
    unfold BLOCK_SIZE in Hj. lia.
  - intros j Hj. apply read_blocks_beyond. change (Z.to_nat BLOCK_SIZE) with 64%nat.
    unfold MAX_FILE_SIZE in Hj. lia.
Qed.

Lemma fs_read_stays_within_blocks_witness :
  length (snd (fs_read (run ops_two_files fs_create) "a" (bytes 200 x00) 1)) = 200%nat.
Proof.
  destruct (fs_read_stays_within_blocks (run ops_two_files fs_create) "a" (bytes 200 x00) 1
              (reachable_run ops_two_files fs_create reachable_init))
    as (H & _).
  rewrite H. reflexivity.
Defined.

(** * Operations on one file leave the others alone *)

Lemma allocate_blocks_keeps_rest src len needed rest fs0 ix inode0 c0 n i fs b :
  (i + n <= Z.to_nat MAX_BLOCKS)%nat ->
  (ix < length (inodes fs0))%nat ->
  alloc_inv rest fs0 ix inode0 c0 i fs ->
  b ∈ rest ->
  blocks (snd (allocate_blocks src len needed ix i n fs)) !! b = blocks fs !! b.
Proof.
  revert i fs. induction n as [|n IH]; intros i fs Hin Hix Hinv Hb; simpl; [reflexivity|].
  destruct (find_free_block fs) as [[p|] fs1] eqn:F.
  - destruct (find_free_block_Some _ _ _ F) as (Hp & _ & _ & ->).
    assert (Hpb : p <> b).
    { intros Heq. destruct Hinv as (bs & _ & _ & _ & (_ & _ & _ & _ & Hu) & _).
      destruct (Hu b) as (v & Hv & Hv0); [apply elem_of_app; right; exact Hb|].
      rewrite Heq in Hp. congruence. }
    rewrite IH; [|lia|exact Hix| |exact Hb].
    + simpl. apply list_lookup_alter_ne. exact Hpb.
    + apply (alloc_inv_step rest fs0 ix inode0 c0 i fs p _ ltac:(lia) Hix Hinv Hp).
  - destruct (find_free_block_None _ _ F) as (-> & _). reflexivity.
Qed.

Lemma read_blocks_ext fs fs' inode to_read n i buffer :
  (forall i', (i <= i' < i + n)%nat ->
     nth (nth i' (inode_blocks inode) 0%nat) (blocks fs') zero_block
     = nth (nth i' (inode_blocks inode) 0%nat) (blocks fs) zero_block) ->
  read_blocks fs' inode to_read i n buffer = read_blocks fs inode to_read i n buffer.
Proof.
  revert i buffer. induction n as [|n IH]; intros i buffer H; simpl; [reflexivity|].
  rewrite (H i) by lia. apply IH. intros i' Hi'. apply H. lia.
Qed.

Lemma fs_read_same fs fs' filename ix inode buffer max_size :
  inode_ok inode ->
  lookup_name fs filename = Some ix -> lookup_name fs' filename = Some ix ->
  inodes fs !! ix = Some inode -> inodes fs' !! ix = Some inode ->
  (forall blk, blk ∈ owned_by inode -> blocks fs' !! blk = blocks fs !! blk) ->
  fs_read fs' filename buffer max_size = fs_read fs filename buffer max_size.
Proof.
  intros [Hlen Hn] Hl Hl' Hi Hi' Hblk. unfold fs_read. rewrite Hl, Hl'.
  rewrite (nth_lookup_Some _ _ _ _ Hi), (nth_lookup_Some _ _ _ _ Hi'). f_equal.
  apply read_blocks_ext. intros i' Hi''. rewrite !(nth_lookup (blocks _)).
  rewrite Hblk; [reflexivity|].
  destruct (lookup_lt_is_Some_2 (inode_blocks inode) i') as [b Hb];
    [rewrite Hlen; rewrite MAX_BLOCKS_eq in *; lia|].
  rewrite (nth_lookup_Some _ _ _ _ Hb). unfold owned_by.
  apply elem_of_take. exists i'. split; [exact Hb|lia].
Qed.

(** What a write to the live inode [ixa] leaves alone: the inode map, the
    other inodes, and the contents of the blocks the other live inodes own. *)
Lemma fs_write_frame fs filename src len now ixa :
  fs_inv [] fs ->
  lookup_name fs filename = Some ixa ->
  let fs' := snd (fs_write fs filename src len now) in
  inode_map fs' = inode_map fs
  /\ (forall k, k <> ixa -> inodes fs' !! k = inodes fs !! k)
  /\ (forall blk, blk ∈ owned (<[ixa := 0]> (inode_map fs)) (inodes fs) ->
        blocks fs' !! blk = blocks fs !! blk).
Proof.
  intros Hinv Hlook fs'. subst fs'. unfold fs_write. rewrite Hlook.
  destruct (len =? 0); [auto|].
  destruct (Z.gtb_spec (needed_blocks_for len) MAX_BLOCKS) as [|Hle]; [auto|].
  destruct (lookup_name_Some _ _ _ Hlook) as (m & inode0 & Hm & Hne & Hi & _ & Hnth).
  rewrite Hnth.
  assert (Hix : (ixa < length (inodes fs))%nat) by (apply lookup_lt_Some in Hi; exact Hi).
  pose proof (needed_blocks_for_nonneg len) as Hnn.
  pose proof (write_loops [] fs ixa m inode0 src len (needed_blocks_for len)
                Hinv Hm Hne Hi (conj Hnn Hle)) as Hloops.
  cbv zeta in Hloops.
  pose proof (release_alloc_inv [] fs ixa m inode0 Hinv Hm Hne Hi) as Hinv0.
  destruct (release_blocks_frame inode0 (Z.to_nat (num_blocks inode0)) 0 fs)
    as (_ & _ & Hblocks1).
  assert (Hkeep : forall blk,
            blk ∈ owned (<[ixa := 0]> (inode_map fs)) (inodes fs) ->
            blocks (snd (allocate_blocks src len (needed_blocks_for len) ixa 0
                           (Z.to_nat (needed_blocks_for len))
                           (release_blocks inode0 0 (Z.to_nat (num_blocks inode0)) fs)))
              !! blk = blocks fs !! blk).
  { intros blk Hblk. rewrite <- Hblocks1.
    apply (allocate_blocks_keeps_rest src len (needed_blocks_for len) _ fs ixa inode0 _
             (Z.to_nat (needed_blocks_for len)) 0 _ blk
             ltac:(rewrite MAX_BLOCKS_eq in *; lia) Hix Hinv0).
    simpl. exact Hblk. }
  destruct (allocate_blocks src len (needed_blocks_for len) ixa 0
              (Z.to_nat (needed_blocks_for len))
              (release_blocks inode0 0 (Z.to_nat (num_blocks inode0)) fs))
    as [[|k] fs2]; cbn [snd] in *.
  - destruct Hloops as (bs & _ & Hinos & (_ & _ & _ & Fmap & _) & _ & _).
    split; [exact Fmap|]. split; [|exact Hkeep].
    intros k Hk. simpl. rewrite list_lookup_alter_ne by congruence.
    rewrite Hinos. apply list_lookup_insert_ne. congruence.
  - destruct Hloops as (_ & (bs & _ & Hinos & (_ & _ & _ & Fmap & _) & _ & _) & _).
    split; [exact Fmap|]. split; [|exact Hkeep].
    intros k' Hk. rewrite Hinos. apply list_lookup_insert_ne. congruence.
Qed.

Lemma fs_delete_blocks fs filename : blocks (snd (fs_delete fs filename)) = blocks fs.
Proof.
  unfold fs_delete. destruct (lookup_name fs filename) as [ix|]; [|reflexivity]. simpl.
  apply (release_blocks_frame (nth ix (inodes fs) zero_inode)).
Qed.

Lemma fs_create_file_blocks fs filename now :
  blocks (snd (fs_create_file fs filename now)) = blocks fs.
Proof.
  unfold fs_create_file, find_free_inode.
  destruct (MAX_FILENAME <=? strlen filename); [reflexivity|].
  destruct (lookup_name fs filename); [reflexivity|].
  destruct (first_free _ _ _); reflexivity.
Qed.

Lemma step_other_file fs o filename ix inode :
  fs_inv [] fs ->
  lookup_name fs filename = Some ix ->
  inodes fs !! ix = Some inode ->
  ~ op_targets o filename ->
  lookup_name (step fs o) filename = Some ix
  /\ inodes (step fs o) !! ix = Some inode
  /\ forall blk, blk ∈ owned_by inode -> blocks (step fs o) !! blk = blocks fs !! blk.
Proof.
  intros Hinv Hlook Hi Hnot.
  pose proof (fs_inv_step [] fs o Hinv) as Hinv'.
  destruct (lookup_name_Some _ _ _ Hlook) as (m & inode_ & Hm & Hne & Hi_ & Hname & _).
  assert (inode_ = inode) as -> by congruence. clear Hi_.
  assert (Hmain : inode_map (step fs o) !! ix = Some m
                  /\ inodes (step fs o) !! ix = Some inode
                  /\ forall blk, blk ∈ owned_by inode ->
                       blocks (step fs o) !! blk = blocks fs !! blk).
  { destruct o as [f now|f src len now|f buffer n|f]; simpl in *.
    - rewrite fs_create_file_blocks.
      destruct (Z.leb_spec MAX_FILENAME (strlen f)) as [Hge|Hlt].
      { rewrite fs_create_file_fail by auto. auto. }
      destruct (lookup_name fs f) as [ix'|] eqn:Hlf.
      { rewrite fs_create_file_fail by (right; left; rewrite Hlf; eauto). auto. }
      destruct (first_free (inode_map fs) 0 (Z.to_nat (total_inodes fs))) as [j|] eqn:F.
      2: { rewrite fs_create_file_fail by auto. auto. }
      destruct (fs_create_file_ok [] fs f now j Hinv Hlt Hlf F) as (inode0 & _ & Heq & _).
      destruct (first_free_Some _ _ _ _ F) as (_ & Hj & _).
      assert (j <> ix) by (intros ->; congruence).
      rewrite Heq. simpl. rewrite !list_lookup_insert_ne by congruence. auto.
    - destruct (lookup_name fs f) as [ixa|] eqn:Hlf.
      2: { unfold fs_write. rewrite Hlf. destruct (len =? 0); auto. }
      destruct (lookup_name_Some _ _ _ Hlf) as (ma & inode_a & Hma & Hnea & Hia & Hna & _).
      assert (ixa <> ix) as Hdiff by (intros ->; congruence).
      destruct (fs_write_frame fs f src len now ixa Hinv Hlf) as (Fmap & Finos & Fblk).
      rewrite Fmap, Finos by congruence. split; [exact Hm|]. split; [exact Hi|].
      intros blk Hblk. apply Fblk. apply elem_of_owned. exists ix, m, inode.
      rewrite list_lookup_insert_ne by congruence. auto.
    - auto.
    - rewrite fs_delete_blocks.
      destruct (lookup_name fs f) as [ixa|] eqn:Hlf.
      2: { unfold fs_delete. rewrite Hlf. auto. }
      destruct (lookup_name_Some _ _ _ Hlf) as (ma & inode_a & Hma & Hnea & Hia & Hna & _).
      assert (ixa <> ix) as Hdiff by (intros ->; congruence).
      destruct (fs_delete_spec [] fs f ixa Hinv Hlf) as (_ & _ & _ & _ & Fmap & Finos & _).
      rewrite Fmap, Finos, !list_lookup_insert_ne by congruence. auto. }
  destruct Hmain as (Hm' & Hi' & Hblk). split; [|split; assumption].
  apply (lookup_name_live (step fs o) filename ix inode Hinv'); [|exact Hname].
  split; eauto.
Qed.

(** X10: in a reachable state, a sequence of calls none of which is a write
    to or a delete of a live file leaves that file alone: it is still found,
    in the same slot, with the same inode record, and a read of it gives
    the same result as before (also when other writes in the sequence ran
    out of blocks). *)
Theorem other_files_untouched (fs : filesystem_t) (ops : list op)
    (filename : string) (ix : nat) (buffer : list byte) (max_size : Z) :
  reachable fs ->
  lookup_name fs filename = Some ix ->
  Forall (fun o => ~ op_targets o filename) ops ->
  lookup_name (run ops fs) filename = Some ix
  /\ inodes (run ops fs) !! ix = inodes fs !! ix
  /\ fs_read (run ops fs) filename buffer max_size
     = fs_read fs filename buffer max_size.
Proof.
  intros Hr Hlook Hops. revert fs Hr Hlook.
  induction Hops as [|o ops Ho _ IH]; intros fs Hr Hlook; simpl; [auto|].
  pose proof (reachable_inv _ Hr) as Hinv.
  destruct (lookup_name_Some _ _ _ Hlook) as (m & inode & Hm & Hne & Hi & _ & _).
  destruct (step_other_file fs o filename ix inode Hinv Hlook Hi Ho) as (Hl' & Hi' & Hblk).
  destruct (IH (step fs o) (reachable_step fs o Hr) Hl') as (H1 & H2 & H3).
  split; [exact H1|]. split; [rewrite H2, Hi', Hi; reflexivity|].
  rewrite H3. apply (fs_read_same fs (step fs o) filename ix inode); try assumption.
  destruct Hinv as [_ (_ & _ & _ & _ & Hok & _)]. rewrite Forall_forall in Hok.
  apply Hok. eapply list_elem_of_lookup_2. exact Hi.
Qed.

Lemma other_files_untouched_witness :
  fs_read (run [Write "a" (bytes 256 x43) 256 5; Delete "a"; Create "c" 6]
             (run ops_two_files fs_create)) "b" (bytes 832 x00) 832
  = fs_read (run ops_two_files fs_create) "b" (bytes 832 x00) 832.
Proof.
  apply (other_files_untouched (run ops_two_files fs_create)
           [Write "a" (bytes 256 x43) 256 5; Delete "a"; Create "c" 6] "b" 1
           (bytes 832 x00) 832
           (reachable_run ops_two_files fs_create reachable_init)
           ltac:(vm_compute; reflexivity)).
  repeat constructor; simpl; try discriminate; tauto.
Defined.

(** * What a read returns after a write, block multiples included *)

Lemma read_blocks_prefix fs inode src len buffer0 n i :
  (i + n = Z.to_nat (num_blocks inode))%nat ->
  (0 < n)%nat ->
  0 <= len ->
  let m := Z.to_nat ((num_blocks inode - 1) * BLOCK_SIZE + len mod BLOCK_SIZE) in
  (m <= length src)%nat ->
  (m <= length buffer0)%nat ->
  (forall i', (i' < Z.to_nat (num_blocks inode))%nat ->
     let b := nth i' (inode_blocks inode) 0%nat in
     let c := Z.to_nat (chunk_len len (num_blocks inode) i') in
     take c (data (nth b (blocks fs) zero_block))
     = take c (drop (i' * Z.to_nat BLOCK_SIZE) src)) ->
  read_blocks fs inode len i n
    (take (i * Z.to_nat BLOCK_SIZE) src ++ drop (i * Z.to_nat BLOCK_SIZE) buffer0)
  = take m src ++ drop m buffer0.
Proof.
  intros Hin Hn Hlen m Hsrc Hbuf Hst. revert i Hin Hn.
  induction n as [|n IH]; intros i Hin Hn; [lia|].
  simpl read_blocks.
  change (if Z.of_nat i =? num_blocks inode - 1 then len mod BLOCK_SIZE else BLOCK_SIZE)
    with (chunk_len len (num_blocks inode) i).
  specialize (Hst i ltac:(lia)) as Hi. cbv zeta in Hi.
  unfold memcpy. rewrite drop_0, Hi.
  pose proof (Z.mod_pos_bound len BLOCK_SIZE ltac:(reflexivity)) as Hmod.
  subst m. change (Z.to_nat BLOCK_SIZE) with 64%nat in *. change BLOCK_SIZE with 64 in *.
  set (m := Z.to_nat ((num_blocks inode - 1) * 64 + len mod 64)) in *.
  set (c := Z.to_nat (chunk_len len (num_blocks inode) i)).
  assert (Hc : (i * 64 + c <= m)%nat
               /\ (n = 0%nat -> (i * 64 + c = m)%nat)
               /\ (n <> 0%nat -> c = 64%nat)).
  { subst c m. unfold chunk_len. change BLOCK_SIZE with 64.
    destruct (Z.eqb_spec (Z.of_nat i) (num_blocks inode - 1)); lia. }
  destruct Hc as (Hc1 & Hc2 & Hc3).
  rewrite (list_inserts_middle (i * 64) (take (i * 64) src)
             (take c (drop (i * 64) src)) (drop (i * 64) buffer0)).
  2: { rewrite length_take. lia. }
  2: { rewrite length_take, !length_drop. lia. }
  rewrite app_assoc, take_take_drop, length_take, length_drop, drop_drop.
  replace (c `min` (length src - i * 64))%nat with c by lia.
  destruct n as [|n].
  - simpl. rewrite (Hc2 eq_refl). reflexivity.
  - rewrite (Hc3 ltac:(lia)).
    replace (i * 64 + 64)%nat with (S i * 64)%nat by lia.
    apply IH; lia.
Qed.

(** After a write that reports success, the file is found where it was, has
    the new size and block count, and its blocks begin with the bytes the
    write copied into them. *)
Lemma fs_write_done_stored fs filename src len now :
  reachable fs ->
  Z.of_nat (length src) = len ->
  0 < len <= MAX_FILE_SIZE ->
  fst (fs_write fs filename src len now) = len ->
  let fs' := snd (fs_write fs filename src len now) in
  let needed := needed_blocks_for len in
  exists ix inode',
    lookup_name fs' filename = Some ix
    /\ inodes fs' !! ix = Some inode'
    /\ size inode' = len
    /\ num_blocks inode' = needed
    /\ forall i', (i' < Z.to_nat needed)%nat ->
         let b := nth i' (inode_blocks inode') 0%nat in
         let c := Z.to_nat (chunk_len len needed i') in
         take c (data (nth b (blocks fs') zero_block))
         = take c (drop (i' * Z.to_nat BLOCK_SIZE) src).
Proof.
  intros Hr Hsrc Hlen Hret fs' needed. subst fs'.
  pose proof (reachable_inv _ Hr) as Hinv.
  pose proof (reachable_blocks_ok _ Hr) as Hbok.
  destruct (needed_blocks_for_small len ltac:(lia)) as [Hneeded Hle].
  destruct (lookup_name fs filename) as [ix|] eqn:Hlook.
  2: { unfold fs_write in Hret. rewrite Hlook in Hret.
       destruct (len =? 0); simpl in Hret; lia. }
  rewrite (fs_write_unfold fs filename src len now ix ltac:(lia) Hlook Hle) in *.
  cbv zeta in *.
  destruct (lookup_name_Some _ _ _ Hlook) as (m & inode0 & Hm & Hne & Hi & Hname & Hnth).
  rewrite Hnth in *.
  pose proof (write_loops [] fs ix m inode0 src len (needed_blocks_for len)
                Hinv Hm Hne Hi (conj (needed_blocks_for_nonneg len) Hle)) as Hloops.
  cbv zeta in Hloops.
  pose proof (release_alloc_inv [] fs ix m inode0 Hinv Hm Hne Hi) as Hinv0.
  destruct (release_blocks_frame inode0 (Z.to_nat (num_blocks inode0)) 0 fs)
    as (_ & _ & Hblocks1).
  destruct (allocate_blocks src len (needed_blocks_for len) ix 0
              (Z.to_nat (needed_blocks_for len))
              (release_blocks inode0 0 (Z.to_nat (num_blocks inode0)) fs))
    as [[|k] fs2] eqn:Halloc.
  2: { simpl in Hret. lia. }
  fold needed in Hloops, Halloc, Hneeded, Hle |- *.
  assert (Hix : (ix < length (inodes fs))%nat) by (apply lookup_lt_Some in Hi; exact Hi).
  pose proof (Z.mod_pos_bound len BLOCK_SIZE ltac:(reflexivity)) as Hmodr.
  assert (Hst : stored src len needed ix (0 + Z.to_nat needed) fs2).
  { refine (allocate_blocks_stored src len needed _ fs ix inode0 _ (Z.to_nat needed) 0
              (release_blocks inode0 0 (Z.to_nat (num_blocks inode0)) fs) fs2
              _ Hix _ _ Hinv0 _ _ Halloc).
    - rewrite MAX_BLOCKS_eq in *. lia.
    - apply Hinv.
    - intros i' Hi'. unfold chunk_len.
      change (Z.to_nat BLOCK_SIZE) with 64%nat. unfold BLOCK_SIZE in *.
      destruct (Z.eqb_spec (Z.of_nat i') (needed - 1));
        (Z.div_mod_to_equations; lia).
    - rewrite Hblocks1. exact Hbok.
    - intros i' Hi'. lia. }
  destruct (write_done_inv [] fs ix m inode0 _ len needed now fs2
              (proj2 Hinv) Hm Hne Hi (conj (needed_blocks_for_nonneg len) Hle) Hloops)
    as (Hinv' & _ & _ & _).
  destruct Hloops as (bs & Hlenbs & Hinos & (Ft & Fti & Ffi & Fmap & Flb) & Hp & Hc).
  cbn [fst snd] in *.
  set (fs' := set_inodes (alter (finish_write len needed now) ix (inodes fs2)) fs2) in *.
  set (inode' := finish_write len needed now (with_blocks bs inode0)).
  assert (Hi2 : inodes fs2 !! ix = Some (with_blocks bs inode0)).
  { rewrite Hinos. apply list_lookup_insert_eq. exact Hix. }
  assert (Hi' : inodes fs' !! ix = Some inode').
  { subst fs'. simpl. rewrite list_lookup_alter_eq, Hi2. reflexivity. }
  exists ix, inode'. split; [|split; [exact Hi'|split; [|split]]].
  - apply (lookup_name_live fs' filename ix inode' Hinv'); [|exact Hname].
    split; [|exact Hi']. exists m. change (inode_map fs') with (inode_map fs2).
    rewrite Fmap. split; assumption.
  - apply wrap32_small. unfold MAX_FILE_SIZE in *. lia.
  - apply wrap8_small. pose proof (needed_blocks_for_nonneg len).
    fold needed in H. rewrite MAX_BLOCKS_eq in *. lia.
  - intros i' Hlt. specialize (Hst i' ltac:(lia)). cbv zeta in Hst |- *.
    rewrite (nth_lookup_Some _ _ _ _ Hi2) in Hst. exact Hst.
Qed.

(** X11: in a reachable state, after a write of [len] bytes
    ([0 < len <= MAX_FILE_SIZE], [src] holding [len] bytes) that returns
    [len], a read of [len] bytes into a buffer of at least [len] bytes
    returns [len] and replaces the first [m] bytes of the buffer by the first
    [m] bytes written, where [m] is [len] when [len] is not a multiple of
    [BLOCK_SIZE] and [len - BLOCK_SIZE] when it is: the last block of an
    exact multiple is neither stored nor read back. *)
Theorem write_read_law (fs : filesystem_t) (filename : string)
    (src : list byte) (len now : Z) (buffer : list byte) :
  reachable fs ->
  Z.of_nat (length src) = len ->
  0 < len <= MAX_FILE_SIZE ->
  (length src <= length buffer)%nat ->
  fst (fs_write fs filename src len now) = len ->
  let m := Z.to_nat (if len mod BLOCK_SIZE =? 0 then len - BLOCK_SIZE else len) in
  fs_read (snd (fs_write fs filename src len now)) filename buffer len
  = (len, take m src ++ drop m buffer).
Proof.
  intros Hr Hsrc Hlen Hbuf Hret m.
  destruct (fs_write_done_stored fs filename src len now Hr Hsrc Hlen Hret)
    as (ix & inode' & Hlook & Hi & Hsize & Hnum & Hst).
  destruct (needed_blocks_for_small len ltac:(lia)) as [Hneeded _].
  unfold fs_read. rewrite Hlook, (nth_lookup_Some _ _ _ _ Hi), Hsize.
  rewrite Z.ltb_irrefl, to_int_small by (unfold MAX_FILE_SIZE in *; lia).
  f_equal.
  assert (Hm : m = Z.to_nat ((num_blocks inode' - 1) * BLOCK_SIZE + len mod BLOCK_SIZE)).
  { subst m. rewrite Hnum, Hneeded. unfold BLOCK_SIZE.
    destruct (Z.eqb_spec (len mod 64) 0); f_equal; Z.div_mod_to_equations; lia. }
  rewrite Hm.
  change buffer with (take (0 * Z.to_nat BLOCK_SIZE) src
                      ++ drop (0 * Z.to_nat BLOCK_SIZE) buffer) at 1.
  apply read_blocks_prefix.
  - reflexivity.
  - rewrite Hnum, Hneeded. unfold BLOCK_SIZE. Z.div_mod_to_equations. lia.
  - lia.
  - rewrite <- Hm. subst m. unfold BLOCK_SIZE. destruct (len mod 64 =? 0); lia.
  - rewrite <- Hm. subst m. unfold BLOCK_SIZE. destruct (len mod 64 =? 0); lia.
  - intros i' Hlt. rewrite Hnum in Hlt |- *. apply Hst. exact Hlt.
Qed.

Lemma write_read_law_witness :
  fs_read (snd (fs_write (run [Create "a" 1] fs_create) "a" (bytes 128 x41) 128 2))
    "a" (bytes 128 x00) 128
  = (128, take 64 (bytes 128 x41) ++ drop 64 (bytes 128 x00)).
Proof.
  apply (write_read_law (run [Create "a" 1] fs_create) "a" (bytes 128 x41) 128 2
           (bytes 128 x00)
           (reachable_run [Create "a" 1] fs_create reachable_init)
           ltac:(vm_compute; reflexivity) ltac:(unfold MAX_FILE_SIZE; lia)
           ltac:(vm_compute; lia) ltac:(vm_compute; reflexivity)).
Defined.

(** * fs_list_files *)

Lemma list_rows_from_elem fs n i row :
  row ∈ list_rows_from fs i n <->
  exists k m, (i <= k < i + n)%nat /\ inode_map fs !! k = Some m /\ m <> 0
              /\ row = row_of (nth k (inodes fs) zero_inode).
Proof.
  revert i. induction n as [|n IH]; intros i; simpl.
  { split; [intros H; inversion H|intros (k & m & Hk & _); lia]. }
  assert (Hrest : row ∈ list_rows_from fs (S i) n ->
            exists k m, (i <= k < i + S n)%nat /\ inode_map fs !! k = Some m /\ m <> 0
                        /\ row = row_of (nth k (inodes fs) zero_inode)).
  { intros H. apply IH in H as (k & m & Hk & H). exists k, m. split; [lia|exact H]. }
  assert (Hback : forall k m, (i <= k < i + S n)%nat -> k <> i ->
            inode_map fs !! k = Some m -> m <> 0 ->
            row = row_of (nth k (inodes fs) zero_inode) ->
            row ∈ list_rows_from fs (S i) n).
  { intros k m Hk Hki Hm Hne Hrow. apply IH. exists k, m. repeat split; try assumption; lia. }
  destruct (inode_map fs !! i) as [[|q|q]|] eqn:E.
  - split; [exact Hrest|]. intros (k & m & Hk & Hm & Hne & Hrow).
    apply (Hback k m Hk); try assumption. intros ->. congruence.
  - rewrite elem_of_cons. split.
    + intros [->|H]; [|exact (Hrest H)]. exists i, (Z.pos q). repeat split; try lia. exact E.
    + intros (k & m & Hk & Hm & Hne & Hrow). destruct (decide (k = i)) as [->|Hki];
        [left; exact Hrow|right; apply (Hback k m Hk Hki Hm Hne Hrow)].
  - rewrite elem_of_cons. split.
    + intros [->|H]; [|exact (Hrest H)]. exists i, (Z.neg q). repeat split; try lia. exact E.
    + intros (k & m & Hk & Hm & Hne & Hrow). destruct (decide (k = i)) as [->|Hki];
        [left; exact Hrow|right; apply (Hback k m Hk Hki Hm Hne Hrow)].
  - split; [exact Hrest|]. intros (k & m & Hk & Hm & Hne & Hrow).
    apply (Hback k m Hk); try assumption. intros ->. congruence.
Qed.

(** Rows come out in the order of their inode slots. *)
Lemma list_rows_from_sorted fs n i p q r1 r2 :
  (p < q)%nat ->
  list_rows_from fs i n !! p = Some r1 ->
  list_rows_from fs i n !! q = Some r2 ->
  exists k1 k2 m1 m2,
    (i <= k1 < k2)%nat /\ (k2 < i + n)%nat
    /\ inode_map fs !! k1 = Some m1 /\ m1 <> 0
    /\ inode_map fs !! k2 = Some m2 /\ m2 <> 0
    /\ r1 = row_of (nth k1 (inodes fs) zero_inode)
    /\ r2 = row_of (nth k2 (inodes fs) zero_inode).
Proof.
  revert i p q. induction n as [|n IH]; intros i p q Hpq H1 H2; simpl in *; [discriminate|].
  assert (Hskip : list_rows_from fs (S i) n !! p = Some r1 ->
                  list_rows_from fs (S i) n !! q = Some r2 ->
                  exists k1 k2 m1 m2,
                    (i <= k1 < k2)%nat /\ (k2 < i + S n)%nat
                    /\ inode_map fs !! k1 = Some m1 /\ m1 <> 0
                    /\ inode_map fs !! k2 = Some m2 /\ m2 <> 0
                    /\ r1 = row_of (nth k1 (inodes fs) zero_inode)
                    /\ r2 = row_of (nth k2 (inodes fs) zero_inode)).
  { intros Ha Hb. destruct (IH (S i) p q Hpq Ha Hb) as (k1 & k2 & m1 & m2 & Hk & Hk2 & H).
    exists k1, k2, m1, m2. split; [lia|]. split; [lia|exact H]. }
  assert (Hcons : forall m, inode_map fs !! i = Some m -> m <> 0 ->
            (row_of (nth i (inodes fs) zero_inode) :: list_rows_from fs (S i) n) !! p = Some r1 ->
            (row_of (nth i (inodes fs) zero_inode) :: list_rows_from fs (S i) n) !! q = Some r2 ->
            exists k1 k2 m1 m2,
              (i <= k1 < k2)%nat /\ (k2 < i + S n)%nat
              /\ inode_map fs !! k1 = Some m1 /\ m1 <> 0
              /\ inode_map fs !! k2 = Some m2 /\ m2 <> 0
              /\ r1 = row_of (nth k1 (inodes fs) zero_inode)
              /\ r2 = row_of (nth k2 (inodes fs) zero_inode)).
  { intros m Hm Hne Ha Hb. destruct q as [|q]; [lia|]. simpl in Hb.
    destruct p as [|p]; simpl in Ha.
    - injection Ha as <-.
      assert (Hin : r2 ∈ list_rows_from fs (S i) n)
        by (eapply list_elem_of_lookup_2; exact Hb).
      apply list_rows_from_elem in Hin as (k2 & m2 & Hk2 & Hm2 & Hne2 & Hr2).
      exists i, k2, m, m2. repeat split; try assumption; lia.
    - destruct (IH (S i) p q ltac:(lia) Ha Hb) as (k1 & k2 & m1 & m2 & Hk & Hk2 & H).
      exists k1, k2, m1, m2. split; [lia|]. split; [lia|exact H]. }
  destruct (inode_map fs !! i) as [[|x|x]|] eqn:E.
  - apply Hskip; assumption.
  - apply (Hcons (Z.pos x)); [reflexivity|lia|assumption|assumption].
  - apply (Hcons (Z.neg x)); [reflexivity|lia|assumption|assumption].
  - apply Hskip; assumption.
Qed.

Lemma list_rows_from_length fs n i :
  (i + n <= length (inode_map fs))%nat ->
  Z.of_nat (length (list_rows_from fs i n))
  + count_free (take n (drop i (inode_map fs))) = Z.of_nat n.
Proof.
  revert i. induction n as [|n IH]; intros i Hin; simpl; [reflexivity|].
  destruct (lookup_lt_is_Some_2 (inode_map fs) i) as [m Hm]; [lia|].
  rewrite (drop_S _ _ _ Hm). simpl. rewrite Hm.
  specialize (IH (S i) ltac:(lia)).
  destruct m as [|x|x]; simpl; lia.
Qed.

(** X12: in a reachable state the rows [fs_list_files] prints are exactly the
    live files, each once: a row is printed if and only if the name lookup
    finds its name, and it then shows that inode's name, size and time
    stamps; no name is printed twice; the number of rows is [MAX_FILES]
    minus [free_inodes]; and rows appear in increasing order of inode index
    (not of name or time). *)
Theorem fs_list_files_rows (fs : filesystem_t) :
  reachable fs ->
  let rows := fs_list_files fs in
  (forall row,
      row ∈ rows <->
      exists ix, lookup_name fs (row_name row) = Some ix
                 /\ row = row_of (nth ix (inodes fs) zero_inode))
  /\ NoDup (row_name <$> rows)
  /\ Z.of_nat (length rows) = MAX_FILES - free_inodes fs
  /\ (forall p q r1 r2 i1 i2,
        (p < q)%nat -> rows !! p = Some r1 -> rows !! q = Some r2 ->
        lookup_name fs (row_name r1) = Some i1 ->
        lookup_name fs (row_name r2) = Some i2 ->
        (i1 < i2)%nat).
Proof.
  intros Hr rows. pose proof (reachable_inv _ Hr) as Hinv.
  pose proof Hinv as [_ (Hti & _ & Hli & Hlm & _ & Hfi & _)].
  assert (Hslot : forall k m, inode_map fs !! k = Some m -> m <> 0 ->
            let inode := nth k (inodes fs) zero_inode in
            live fs k inode /\ lookup_name fs (name inode) = Some k).
  { intros k m Hm Hne inode.
    destruct (lookup_lt_is_Some_2 (inodes fs) k) as [ino Hino];
      [apply lookup_lt_Some in Hm; rewrite Hli, <- Hlm; exact Hm|].
    subst inode. rewrite (nth_lookup_Some _ _ _ _ Hino).
    assert (Hlive : live fs k ino) by (split; eauto).
    split; [exact Hlive|].
    apply (lookup_name_live fs (name ino) k ino Hinv Hlive eq_refl). }
  assert (Hsorted : forall p q r1 r2 i1 i2,
            (p < q)%nat -> rows !! p = Some r1 -> rows !! q = Some r2 ->
            lookup_name fs (row_name r1) = Some i1 ->
            lookup_name fs (row_name r2) = Some i2 ->
            (i1 < i2)%nat).
  { intros p q r1 r2 i1 i2 Hpq H1 H2 Hl1 Hl2.
    destruct (list_rows_from_sorted fs _ 0 p q r1 r2 Hpq H1 H2)
      as (k1 & k2 & m1 & m2 & Hk & _ & Hm1 & Hne1 & Hm2 & Hne2 & -> & ->).
    destruct (Hslot k1 m1 Hm1 Hne1) as [_ Hf1].
    destruct (Hslot k2 m2 Hm2 Hne2) as [_ Hf2].
    cbn [row_name row_of] in Hl1, Hl2.
    assert (i1 = k1) by congruence. assert (i2 = k2) by congruence. lia. }
  split; [|split; [|split; [|exact Hsorted]]].
  - intros row. unfold rows, fs_list_files. rewrite list_rows_from_elem. split.
    + intros (k & m & _ & Hm & Hne & ->). exists k.
      destruct (Hslot k m Hm Hne) as [_ Hf]. split; [exact Hf|reflexivity].
    + intros (ix & Hlook & ->).
      destruct (lookup_name_Some _ _ _ Hlook) as (m & inode & Hm & Hne & _).
      exists ix, m. repeat split; try assumption; [lia|].
      apply lookup_lt_Some in Hm. rewrite Hti, <- Hlm. simpl. lia.
  - apply NoDup_alt. intros p q s Hp Hq.
    rewrite list_lookup_fmap in Hp, Hq.
    destruct (rows !! p) as [r1|] eqn:E1; [|discriminate].
    destruct (rows !! q) as [r2|] eqn:E2; [|discriminate].
    injection Hp as Hp. injection Hq as Hq.
    assert (Hfind : forall t r, rows !! t = Some r ->
              exists ix, lookup_name fs (row_name r) = Some ix).
    { intros t r Ht.
      assert (Hin : r ∈ list_rows_from fs 0 (Z.to_nat (total_inodes fs)))
        by (eapply list_elem_of_lookup_2; exact Ht).
      apply list_rows_from_elem in Hin as (k & m & _ & Hm & Hne & ->).
      exists k. apply (Hslot k m Hm Hne). }
    destruct (Hfind p r1 E1) as [i1 Hl1]. destruct (Hfind q r2 E2) as [i2 Hl2].
    assert (i1 = i2) by congruence.
    destruct (Nat.lt_trichotomy p q) as [Hlt|[Heq|Hgt]]; [|exact Heq|].
    + pose proof (Hsorted p q r1 r2 i1 i2 Hlt E1 E2 Hl1 Hl2). lia.
    + pose proof (Hsorted q p r2 r1 i2 i1 Hgt E2 E1 Hl2 Hl1). lia.
  - pose proof (list_rows_from_length fs (Z.to_nat (total_inodes fs)) 0) as Hlen.
    rewrite Hti, <- Hlm in Hlen. specialize (Hlen ltac:(lia)).
    rewrite drop_0, firstn_all in Hlen.
    unfold rows, fs_list_files. rewrite Hti, <- Hlm, Hfi.
    unfold MAX_FILES in *. lia.
Qed.

Lemma fs_list_files_rows_witness :
  Z.of_nat (length (fs_list_files (run ops_two_files fs_create)))
  = MAX_FILES - free_inodes (run ops_two_files fs_create).
Proof.
  destruct (fs_list_files_rows (run ops_two_files fs_create)
              (reachable_run ops_two_files fs_create reachable_init))
    as (_ & _ & H & _).
  exact H.
Defined.

(** * A file that comes and goes leaves the maps as they were *)

Lemma release_blocks_other inode n i fs b :
  (i + n <= length (inode_blocks inode))%nat ->
  b ∉ take n (drop i (inode_blocks inode)) ->
  block_map (release_blocks inode i n fs) !! b = block_map fs !! b.
Proof.
  revert i fs. induction n as [|n IH]; intros i fs Hlen Hb; simpl; [reflexivity|].
  destruct (lookup_lt_is_Some_2 (inode_blocks inode) i) as [x Hx]; [lia|].
  rewrite (drop_S _ _ _ Hx) in Hb. simpl in Hb. apply not_elem_of_cons in Hb as [Hbx Hb].
  rewrite IH by (exact Hb || lia). simpl.
  rewrite (nth_lookup_Some _ _ _ _ Hx). apply list_lookup_insert_ne. congruence.
Qed.

(** The allocation loop leaves the entries of the block array below its
    start index alone. *)
Lemma allocate_blocks_prefix src len needed rest fs0 ix inode0 c0 n i fs bs res fs' bs' :
  (i + n <= Z.to_nat MAX_BLOCKS)%nat ->
  (ix < length (inodes fs0))%nat ->
  alloc_inv rest fs0 ix inode0 c0 i fs ->
  inodes fs !! ix = Some (with_blocks bs inode0) ->
  allocate_blocks src len needed ix i n fs = (res, fs') ->
  inodes fs' !! ix = Some (with_blocks bs' inode0) ->
  take i bs' = take i bs.
Proof.
  revert i fs bs. induction n as [|n IH]; intros i fs bs Hin Hix Hinv Hi Halloc Hi';
    simpl in Halloc.
  - injection Halloc as <- <-. rewrite Hi in Hi'. injection Hi' as Hi'.
    congruence.
  - destruct (find_free_block fs) as [[p|] fs1] eqn:F.
    + destruct (find_free_block_Some _ _ _ F) as (Hp & _ & _ & ->).
      pose proof (alloc_inv_step rest fs0 ix inode0 c0 i fs p
                    (fun blk => Block (memcpy (data blk) 0 src (i * Z.to_nat BLOCK_SIZE)
                                   (if Z.of_nat i =? needed - 1 then len mod BLOCK_SIZE
                                    else BLOCK_SIZE)))
                    ltac:(lia) Hix Hinv Hp) as Hstep.
      cbv zeta in Hstep.
      assert (Heq : take (S i) bs' = take (S i) (<[i := p]> bs)).
      { apply (IH (S i) _ (<[i := p]> bs) ltac:(lia) Hix Hstep); [|exact Halloc|exact Hi'].
        simpl. rewrite list_lookup_alter_eq, Hi. reflexivity. }
      apply (f_equal (take i)) in Heq. rewrite !take_take in Heq.
      replace (i `min` S i)%nat with i in Heq by lia.
      rewrite take_insert_ge in Heq by lia. exact Heq.
    + destruct (find_free_block_None _ _ F) as (-> & _).
      injection Halloc as <- <-. rewrite Hi in Hi'. injection Hi' as Hi'.
      congruence.
Qed.

(** A loop that runs to its end changes the block map exactly at the blocks
    it records, and those were free. *)
Lemma allocate_blocks_map src len needed rest fs0 ix inode0 c0 n i fs fs' bs' :
  (i + n <= Z.to_nat MAX_BLOCKS)%nat ->
  (ix < length (inodes fs0))%nat ->
  alloc_inv rest fs0 ix inode0 c0 i fs ->
  allocate_blocks src len needed ix i n fs = (AllocDone, fs') ->
  inodes fs' !! ix = Some (with_blocks bs' inode0) ->
  (forall b, b ∈ drop i (take (i + n) bs') -> block_map fs !! b = Some 0)
  /\ (forall b, b ∉ drop i (take (i + n) bs') ->
        block_map fs' !! b = block_map fs !! b).
Proof.
  revert i fs. induction n as [|n IH]; intros i fs Hin Hix Hinv Halloc Hi';
    simpl in Halloc.
  - injection Halloc as <-. rewrite Nat.add_0_r, drop_ge by (rewrite length_take; lia).
    split; [intros b Hb; inversion Hb|reflexivity].
  - destruct (find_free_block fs) as [[p|] fs1] eqn:F; [|discriminate].
    destruct (find_free_block_Some _ _ _ F) as (Hp & _ & _ & ->).
    pose proof (alloc_inv_step rest fs0 ix inode0 c0 i fs p
                  (fun blk => Block (memcpy (data blk) 0 src (i * Z.to_nat BLOCK_SIZE)
                                 (if Z.of_nat i =? needed - 1 then len mod BLOCK_SIZE
                                  else BLOCK_SIZE)))
                  ltac:(lia) Hix Hinv Hp) as Hstep.
    cbv zeta in Hstep.
    destruct (IH (S i) _ ltac:(lia) Hix Hstep Halloc Hi') as [Hfree Hsame].
    destruct Hinv as (bs & Hlen & Hinos & Hframe & Hpool & Hc).
    assert (Hi : inodes fs !! ix = Some (with_blocks bs inode0)).
    { rewrite Hinos. apply list_lookup_insert_eq. exact Hix. }
    assert (Hpre : take (S i) bs' = take (S i) (<[i := p]> bs)).
    { apply (allocate_blocks_prefix src len needed rest fs0 ix inode0 c0 n (S i) _
               (<[i := p]> bs) AllocDone fs' bs' ltac:(lia) Hix Hstep); [|exact Halloc|exact Hi'].
      simpl. rewrite list_lookup_alter_eq, Hi. reflexivity. }
    assert (Hbsi : bs' !! i = Some p).
    { rewrite <- (lookup_take_lt bs' (S i) i) by lia. rewrite Hpre.
      rewrite lookup_take_lt by lia. apply list_lookup_insert_eq. lia. }
    assert (Hsplit : drop i (take (i + S n) bs') = p :: drop (S i) (take (S i + n) bs')).
    { replace (i + S n)%nat with (S i + n)%nat by lia.
      apply drop_S. rewrite lookup_take_lt by lia. exact Hbsi. }
    rewrite Hsplit. simpl block_map in Hfree, Hsame.
    assert (Hp1 : <[p := 1]> (block_map fs) !! p = Some 1).
    { apply list_lookup_insert_eq. apply lookup_lt_Some in Hp. exact Hp. }
    split.
    + intros b Hb. apply elem_of_cons in Hb as [->|Hb]; [exact Hp|].
      specialize (Hfree b Hb).
      destruct (decide (b = p)) as [->|Hne]; [congruence|].
      rewrite list_lookup_insert_ne in Hfree by congruence. exact Hfree.
    + intros b Hb. apply not_elem_of_cons in Hb as [Hbp Hb].
      rewrite (Hsame b Hb). apply list_lookup_insert_ne. congruence.
Qed.

Lemma fs_delete_block_map fs filename ix :
  lookup_name fs filename = Some ix ->
  block_map (snd (fs_delete fs filename))
  = block_map (release_blocks (nth ix (inodes fs) zero_inode) 0
                 (Z.to_nat (num_blocks (nth ix (inodes fs) zero_inode))) fs).
Proof. intros H. unfold fs_delete. rewrite H. reflexivity. Qed.

(** X13: in a reachable state, creating a file, writing [len] bytes to it
    ([0 < len <= MAX_FILE_SIZE]) and deleting it, each call succeeding,
    gives back every block and the inode: both used-maps and both free
    counters are again what they were before the create. *)
Theorem create_write_delete_restores (fs : filesystem_t) (filename : string)
    (src : list byte) (len now1 now2 : Z) :
  reachable fs ->
  fst (fs_create_file fs filename now1) <> -1 ->
  0 < len <= MAX_FILE_SIZE ->
  let fs1 := snd (fs_create_file fs filename now1) in
  fst (fs_write fs1 filename src len now2) = len ->
  let fs2 := snd (fs_write fs1 filename src len now2) in
  let fs3 := snd (fs_delete fs2 filename) in
  fst (fs_delete fs2 filename) = 0
  /\ block_map fs3 = block_map fs
  /\ inode_map fs3 = inode_map fs
  /\ free_blocks fs3 = free_blocks fs
  /\ free_inodes fs3 = free_inodes fs.
Proof.
  intros Hr Hok Hlen fs1 Hret fs2 fs3.
  pose proof (reachable_inv _ Hr) as Hinv.
  (* the create *)
  destruct (Z.leb_spec MAX_FILENAME (strlen filename)) as [Hge|Hlt].
  { exfalso. apply Hok. rewrite fs_create_file_fail by auto. reflexivity. }
  destruct (lookup_name fs filename) as [ix|] eqn:Hlook.
  { exfalso. apply Hok. rewrite fs_create_file_fail by (right; left; rewrite Hlook; eauto).
    reflexivity. }
  destruct (first_free (inode_map fs) 0 (Z.to_nat (total_inodes fs))) as [j|] eqn:F.
  2: { exfalso. apply Hok. rewrite fs_create_file_fail by auto. reflexivity. }
  destruct (fs_create_file_ok [] fs filename now1 j Hinv Hlt Hlook F)
    as (inode_ & Hi_ & Heq & Hinv1).
  destruct (first_free_Some _ _ _ _ F) as (_ & Hj & _).
  fold fs1 in Hinv1.
  assert (Hjm : (j < length (inode_map fs))%nat) by (apply lookup_lt_Some in Hj; exact Hj).
  assert (Hji : (j < length (inodes fs))%nat) by (apply lookup_lt_Some in Hi_; exact Hi_).
  set (inode0 := init_inode filename now1 inode_).
  assert (Hfs1 : inode_map fs1 = <[j := 1]> (inode_map fs)
                 /\ inodes fs1 !! j = Some inode0
                 /\ block_map fs1 = block_map fs
                 /\ free_inodes fs1 = free_inodes fs - 1).
  { subst fs1. rewrite Heq. cbn [snd]. simpl.
    split; [reflexivity|]. split; [apply list_lookup_insert_eq; exact Hji|].
    split; reflexivity. }
  destruct Hfs1 as (Hmap1 & Hi1 & Hbm1 & Hfi1).
  assert (Hm1 : inode_map fs1 !! j = Some 1).
  { rewrite Hmap1. apply list_lookup_insert_eq. exact Hjm. }
  assert (Hname0 : name inode0 = filename) by (apply strncpy_short; exact Hlt).
  assert (Hlook1 : lookup_name fs1 filename = Some j).
  { apply (lookup_name_live fs1 filename j inode0 Hinv1); [|exact Hname0].
    split; [exists 1; split; [exact Hm1|lia]|exact Hi1]. }
  clearbody fs1. clear Heq.
  (* the write *)
  destruct (needed_blocks_for_small len ltac:(lia)) as [Hneeded Hle].
  pose proof (needed_blocks_for_nonneg len) as Hnn.
  subst fs3 fs2.
  rewrite (fs_write_unfold fs1 filename src len now2 j ltac:(lia) Hlook1 Hle) in *.
  cbv zeta in *. rewrite (nth_lookup_Some _ _ _ _ Hi1) in *.
  pose proof (write_loops [] fs1 j 1 inode0 src len (needed_blocks_for len)
                Hinv1 Hm1 ltac:(lia) Hi1 (conj Hnn Hle)) as Hloops.
  cbv zeta in Hloops.
  pose proof (release_alloc_inv [] fs1 j 1 inode0 Hinv1 Hm1 ltac:(lia) Hi1) as Hinv0.
  change (release_blocks inode0 0 (Z.to_nat (num_blocks inode0)) fs1) with fs1 in *.
  assert (Hj1 : (j < length (inodes fs1))%nat) by (apply lookup_lt_Some in Hi1; exact Hi1).
  destruct (allocate_blocks src len (needed_blocks_for len) j 0
              (Z.to_nat (needed_blocks_for len)) fs1) as [[|k] fs2'] eqn:Halloc.
  2: { simpl in Hret. lia. }
  destruct (write_done_inv [] fs1 j 1 inode0 _ len (needed_blocks_for len) now2 fs2'
              (proj2 Hinv1) Hm1 ltac:(lia) Hi1 (conj Hnn Hle) Hloops)
    as (Hinv2 & _ & _ & _).
  destruct Hloops as (bs & Hlenbs & Hinos & (_ & _ & Ffi & Fmap & _) & _ & _).
  assert (Hi2' : inodes fs2' !! j = Some (with_blocks bs inode0)).
  { rewrite Hinos. apply list_lookup_insert_eq. exact Hj1. }
  destruct (allocate_blocks_map src len (needed_blocks_for len) _ fs1 j inode0 _
              (Z.to_nat (needed_blocks_for len)) 0 fs1 fs2' bs
              ltac:(rewrite MAX_BLOCKS_eq in *; lia) Hj1 Hinv0 Halloc Hi2')
    as [Hwasfree Hothers].
  simpl in Hwasfree, Hothers.
  cbn [fst snd] in *.
  set (fs2 := set_inodes (alter (finish_write len (needed_blocks_for len) now2) j
                            (inodes fs2')) fs2') in *.
  set (inode2 := finish_write len (needed_blocks_for len) now2 (with_blocks bs inode0)).
  assert (Hi2 : inodes fs2 !! j = Some inode2).
  { subst fs2. simpl. rewrite list_lookup_alter_eq, Hi2'. reflexivity. }
  assert (Hlook2 : lookup_name fs2 filename = Some j).
  { apply (lookup_name_live fs2 filename j inode2 Hinv2); [|exact Hname0].
    split; [|exact Hi2]. exists 1. change (inode_map fs2) with (inode_map fs2').
    rewrite Fmap. split; [exact Hm1|lia]. }
  assert (Hown : owned_by inode2 = take (Z.to_nat (needed_blocks_for len)) bs).
  { unfold owned_by, inode2. simpl. rewrite wrap8_small; [reflexivity|].
    rewrite MAX_BLOCKS_eq in *. lia. }
  (* the delete *)
  destruct (fs_delete_spec [] fs2 filename j Hinv2 Hlook2)
    as (Hret3 & Hinv3 & _ & Hfi3 & Hmap3 & _ & Hzero).
  rewrite (nth_lookup_Some _ _ _ _ Hi2) in Hzero. rewrite Hown in Hzero.
  assert (Hbm : block_map (snd (fs_delete fs2 filename)) = block_map fs).
  { apply list_eq. intros b. rewrite <- Hbm1.
    destruct (decide (b ∈ take (Z.to_nat (needed_blocks_for len)) bs)) as [Hin|Hout].
    - rewrite (Hzero b Hin). symmetry. apply Hwasfree. exact Hin.
    - rewrite (fs_delete_block_map fs2 filename j Hlook2).
      rewrite (nth_lookup_Some _ _ _ _ Hi2).
      rewrite release_blocks_other.
      + change (block_map fs2) with (block_map fs2'). apply Hothers. exact Hout.
      + change (inode_blocks inode2) with bs.
        change (num_blocks inode2) with (wrap8 (needed_blocks_for len)).
        rewrite wrap8_small by (rewrite MAX_BLOCKS_eq in *; lia).
        rewrite Hlenbs, MAX_BLOCKS_eq in *. lia.
      + change (inode_blocks inode2) with bs.
        change (num_blocks inode2) with (wrap8 (needed_blocks_for len)).
        rewrite wrap8_small by (rewrite MAX_BLOCKS_eq in *; lia).
        exact Hout. }
  split; [exact Hret3|]. split; [exact Hbm|]. split; [|split].
  - rewrite Hmap3. change (inode_map fs2) with (inode_map fs2').
    rewrite Fmap, Hmap1, list_insert_insert_eq. apply list_insert_id. exact Hj.
  - destruct Hinv3 as [(_ & _ & -> & _) _]. destruct Hinv as [(_ & _ & -> & _) _].
    rewrite Hbm. reflexivity.
  - rewrite Hfi3. change (free_inodes fs2) with (free_inodes fs2'). rewrite Ffi, Hfi1. lia.
Qed.

Lemma create_write_delete_restores_witness :
  block_map
    (snd (fs_delete
            (snd (fs_write (snd (fs_create_file (run ops_two_files fs_create) "c" 7))
                    "c" (bytes 50 x44) 50 8)) "c"))
  = block_map (run ops_two_files fs_create).
Proof.
  destruct (create_write_delete_restores (run ops_two_files fs_create) "c"
              (bytes 50 x44) 50 7 8
              (reachable_run ops_two_files fs_create reachable_init)
              ltac:(vm_compute; discriminate) ltac:(unfold MAX_FILE_SIZE; lia)
              ltac:(vm_compute; reflexivity))
    as (_ & H & _).
  exact H.
Defined.
